(** * Civ7AIMapGeneration: land/water synthesis of the two map scripts

    A shallow embedding of the landmass and coast stages of
    [Working Outputs/smiley-face.js] and [Working Outputs/earthlike.js],
    and the properties of section 8 of the specification checked against
    them.

    The scripts run against the game engine ([GameplayMap],
    [TerrainBuilder], [FractalBuilder], [GameInfo]) and the base-game
    helper modules under [/base-standard/maps/].  Neither is part of the
    repository, so the engine is an interface ([Engine]) that every
    definition and every general theorem is parametric in; a small
    reference engine ([RefEngine]) is used to run the scripts on concrete
    maps. *)

From Stdlib Require Import ZArith QArith Qabs Lia Ascii.
From stdpp Require Import gmap list.

Local Open Scope Z_scope.

(** ** Data model *)

(** Terrain kinds of [map-globals.js] that the scripts name. *)
Inductive Terrain : Set :=
  | g_MountainTerrain
  | g_HillTerrain
  | g_FlatTerrain
  | g_CoastTerrain
  | g_OceanTerrain
  | g_NavigableRiverTerrain.

#[global] Instance Terrain_eq_dec : EqDecision Terrain.
Proof. solve_decision. Defined.

(** Members of the engine's [PlotTags] bit set.  [PLOT_TAG_NONE] is the
    empty set. *)
Inductive PlotTag : Set :=
  | PLOT_TAG_LANDMASS
  | PLOT_TAG_WATER
  | PLOT_TAG_EAST_LANDMASS
  | PLOT_TAG_WEST_LANDMASS
  | PLOT_TAG_EAST_WATER
  | PLOT_TAG_WEST_WATER.

#[global] Instance PlotTag_eq_dec : EqDecision PlotTag.
Proof. solve_decision. Defined.

Definition PlotTag_code (t : PlotTag) : nat :=
  match t with
  | PLOT_TAG_LANDMASS => 0 | PLOT_TAG_WATER => 1
  | PLOT_TAG_EAST_LANDMASS => 2 | PLOT_TAG_WEST_LANDMASS => 3
  | PLOT_TAG_EAST_WATER => 4 | PLOT_TAG_WEST_WATER => 5
  end%nat.

Definition PlotTag_decode (n : nat) : option PlotTag :=
  match n with
  | 0 => Some PLOT_TAG_LANDMASS | 1 => Some PLOT_TAG_WATER
  | 2 => Some PLOT_TAG_EAST_LANDMASS | 3 => Some PLOT_TAG_WEST_LANDMASS
  | 4 => Some PLOT_TAG_EAST_WATER | 5 => Some PLOT_TAG_WEST_WATER
  | _ => None
  end%nat.

#[global] Instance PlotTag_countable : Countable PlotTag.
Proof.
  apply (inj_countable PlotTag_code PlotTag_decode).
  intros []; reflexivity.
Defined.

Definition PLOT_TAG_NONE : gset PlotTag := ∅.

(** A row of [GameInfo.Maps]: the fields the scripts read. *)
Record MapInfo : Set := mkMapInfo {
  PlayersLandmass1 : Z;
  PlayersLandmass2 : Z;
  NumNaturalWonders : Z;
  LakeGenerationFrequency : Z;
  StartSectorRows : Z;
  StartSectorCols : Z
}.

(** The engine state a script can reach.  [hidden] is whatever else the
    engine keeps (random stream, fractal store, areas, ...); the scripts
    see it only through the calls of [Engine]. *)
Record World (X : Type) : Type := mkWorld {
  gridWidth : Z;
  gridHeight : Z;
  mapSize : Z;
  Maps : gmap Z MapInfo;
  terrain : gmap (Z * Z) Terrain;
  plotTags : gmap (Z * Z) (gset PlotTag);
  hidden : X
}.
Arguments mkWorld {X}.
Arguments gridWidth {X}.
Arguments gridHeight {X}.
Arguments mapSize {X}.
Arguments Maps {X}.
Arguments terrain {X}.
Arguments plotTags {X}.
Arguments hidden {X}.

Section Plots.
Context {X : Type}.
Implicit Type w : World X.

Definition setHidden (h : X) w : World X :=
  mkWorld (gridWidth w) (gridHeight w) (mapSize w) (Maps w)
          (terrain w) (plotTags w) h.

(** [GameplayMap.getTerrainType]: [None] stands for the engine's answer
    for a location that is not a plot of the map. *)
Definition getTerrainType (x y : Z) w : option Terrain :=
  terrain w !! (x, y).

(** [TerrainBuilder.setTerrainType].  The scripts write only plots they
    scan inside the grid or have just read. *)
Definition setTerrainType (x y : Z) (t : Terrain) w : World X :=
  mkWorld (gridWidth w) (gridHeight w) (mapSize w) (Maps w)
          (<[(x, y) := t]> (terrain w)) (plotTags w) (hidden w).

(** [TerrainBuilder.setPlotTag]: replaces the tag set of the plot. *)
Definition setPlotTag (x y : Z) (T : gset PlotTag) w : World X :=
  mkWorld (gridWidth w) (gridHeight w) (mapSize w) (Maps w)
          (terrain w) (<[(x, y) := T]> (plotTags w)) (hidden w).

Definition getPlotTags (x y : Z) w : gset PlotTag :=
  default ∅ (plotTags w !! (x, y)).

(** [TerrainBuilder.addPlotTag]: sets one more bit of the plot's tag
    set and keeps the bits already there. *)
Definition addPlotTag (x y : Z) (t : PlotTag) w : World X :=
  setPlotTag x y ({[t]} ∪ getPlotTags x y w) w.
End Plots.

(** JS numbers are modelled by rationals.  Every value the scripts
    compute from the grid size is a multiple of 1/4 and far below 2^53,
    so those operations are exact; where an operand comes from the
    engine (a height, the cutoff, a sine) the result goes through the
    engine's [roundToDouble]. *)
Definition Qltb (a b : Q) : bool := negb (Qle_bool b a).
Definition num (z : Z) : Q := inject_Z z.

(** Modelled from the spec: [utilities.addLandmassPlotTags] of
    map-utilities.js is not in the repository.  The tag set is "purely
    additive metadata"; the cell is tagged "landmass-member" and by the
    side of the boundary column it falls on. *)
Definition addLandmassPlotTags {X} (iX iY : Z) (iEastContinentLeftCol : Q)
    (w : World X) : World X :=
  let w := addPlotTag iX iY PLOT_TAG_LANDMASS w in
  if Qle_bool iEastContinentLeftCol (num iX)
  then addPlotTag iX iY PLOT_TAG_EAST_LANDMASS w
  else addPlotTag iX iY PLOT_TAG_WEST_LANDMASS w.

(** Modelled from the spec: [utilities.addWaterPlotTags] of
    map-utilities.js is not in the repository; the "water-member"
    counterpart of [addLandmassPlotTags]. *)
Definition addWaterPlotTags {X} (iX iY : Z) (iEastContinentLeftCol : Q)
    (w : World X) : World X :=
  let w := addPlotTag iX iY PLOT_TAG_WATER w in
  if Qle_bool iEastContinentLeftCol (num iX)
  then addPlotTag iX iY PLOT_TAG_EAST_WATER w
  else addPlotTag iX iY PLOT_TAG_WEST_WATER w.

Definition isLandmassTag (t : PlotTag) : bool :=
  match t with
  | PLOT_TAG_LANDMASS | PLOT_TAG_EAST_LANDMASS | PLOT_TAG_WEST_LANDMASS => true
  | _ => false
  end.

Definition isWaterTag (t : PlotTag) : bool := negb (isLandmassTag t).

(** The continent objects of smiley-face.js; [east] is [iWidth/2 - 12],
    a half-integer on a map of odd width. *)
Record Region : Set := mkRegion {
  west : Q;
  east : Q;
  south : Q;
  north : Q;
  continent : Z
}.

(** ** The two nested [for] loops over the plots

    [for (y = y0; y < y0 + ny; y++) for (x = x0; x < x0 + nx; x++) body]. *)
Definition scan {S : Type} (x0 nx y0 ny : Z) (body : Z -> Z -> S -> S)
    (s : S) : S :=
  foldl (fun s y => foldl (fun s x => body x y s) s (seqZ x0 nx)) s
        (seqZ y0 ny).

(** The plots in the order the loops visit them. *)
Definition cells (x0 nx y0 ny : Z) : list (Z * Z) :=
  y ← seqZ y0 ny; (fun x => (x, y)) <$> seqZ x0 nx.

Definition visit {S : Type} (body : Z -> Z -> S -> S) (s : S) (c : Z * Z) : S :=
  body c.1 c.2 s.

(** ** The engine interface

    Everything the scripts import or call that is not in the repository.
    Calls that read or advance engine state take and return [Hidden]. *)
Definition StartSectors : Set := list bool.

Class Engine : Type := {
  Hidden : Type;
  (* map-globals.js *)
  g_OceanWaterColumns : Z;
  g_PolarWaterRows : Z;
  g_WaterPercent : Z;
  g_Cutoff : Q;
  g_LandmassFractal : Z;
  g_FractalWeight : Q;
  g_CenterWeight : Q;
  g_StartSectorWeight : Q;
  (* [t |-> Math.sin(t * Math.PI)], a floating-point routine *)
  Math_sin_pi : Q -> Q;
  (* rounding to the nearest IEEE double: a JS operation [a op b] on
     numbers is [roundToDouble] of the exact result *)
  roundToDouble : Q -> Q;
  (* TerrainBuilder.getRandomNumber(range, label): one draw of the seeded
     stream *)
  getRandomNumber : Z -> Hidden -> Z * Hidden;
  (* FractalBuilder.create(id, width, height, size, flags) *)
  FractalBuilder_create : Z -> Z -> Z -> Z -> Z -> Hidden -> Hidden;
  (* FractalBuilder.getHeight(id, x, y) *)
  FractalBuilder_getHeight : Z -> Z -> Z -> Hidden -> Z;
  (* FractalBuilder.getHeightFromPercent(id, percent) *)
  FractalBuilder_getHeightFromPercent : Z -> Z -> Hidden -> Z;
  (* utilities.getHeightAdjustingForStartSector(...) *)
  getHeightAdjustingForStartSector :
    Z -> Z -> Z -> Q -> Q -> Q -> Region -> Region -> Z -> Z ->
    StartSectors -> Hidden -> Q;
  (* utilities.needHumanNearEquator() *)
  needHumanNearEquator : Hidden -> bool;
  (* chooseStartSectors(players1, players2, rows, cols, humanNearEquator) *)
  chooseStartSectors :
    Z -> Z -> Z -> Z -> bool -> Hidden -> StartSectors * Hidden;
  (* TerrainBuilder.validateAndFixTerrain() *)
  validateAndFixTerrain : World Hidden -> World Hidden;
  (* GameplayMap.isAdjacentToShallowWater(x, y): reads the live map *)
  isAdjacentToShallowWater : Z -> Z -> World Hidden -> bool;
  (* expandCoasts of elevation-terrain-generator.js, which earthlike.js
     imports instead of defining its own *)
  base_expandCoasts : Z -> Z -> World Hidden -> World Hidden;
  (* the stages of smiley-face.js after its expandCoasts call: ocean plot
     tags, areas, mountains, lakes, rivers, biomes, resources, starts *)
  smileyLaterStages :
    MapInfo -> Region -> Region -> Z -> Z -> StartSectors ->
    World Hidden -> World Hidden;
  (* the stages of earthlike.js after its expandCoasts call *)
  earthlikeLaterStages : MapInfo -> World Hidden -> World Hidden
}.

(** [Math.sqrt(a) < r] for an integer [r]: the root is never negative, and
    below a positive [r] exactly when [a] is below [r * r]. *)
Definition sqrt_lt (a : Q) (r : Z) : bool :=
  (0 <? r) && Qltb a (num r * num r).

Definition Math_pow2 (a : Q) : Q := (a * a)%Q.

(** ** smiley-face.js *)
Module SmileyFace.
Section Script.
Context `{E : Engine}.
Implicit Type w : World Hidden.

Local Open Scope Q_scope.

(** The shape mask of [createSmileyLandmasses]: the test that sets
    [isInFeature].  ([distanceToMouthCenter] is computed by the source
    and never used.)  With [mouthWidth = 0] the source divides by zero
    and the second conjunct of the mouth test is false; so it is here.
    The operations of the mouth band on the value of the sine are
    rounded; halving or doubling an integer and comparing are exact. *)
Definition isInFeature (iWidth iHeight : Z) (continent1 continent2 : Region)
    (eyeRadius mouthWidth mouthHeight : Z) (iX iY : Z) : bool :=
  let continentCenterX :=
    if Qltb (num iX) (num iWidth / 2)
    then (west continent1 + east continent1) / 2
    else (west continent2 + east continent2) / 2 in
  let continentCenterY := num iHeight / 2 in
  let leftEyeX := continentCenterX - num eyeRadius * 2 in
  let rightEyeX := continentCenterX + num eyeRadius * 2 in
  let eyeY := continentCenterY + num eyeRadius * 2 in
  let mouthY := continentCenterY - num eyeRadius * 2 in
  let distanceToLeftEye2 :=
    Math_pow2 (num iX - leftEyeX) + Math_pow2 (num iY - eyeY) in
  let distanceToRightEye2 :=
    Math_pow2 (num iX - rightEyeX) + Math_pow2 (num iY - eyeY) in
  let mouthCurve :=
    roundToDouble
      (Math_sin_pi ((num iX - continentCenterX) / num mouthWidth)
       * num mouthHeight) in
  sqrt_lt distanceToLeftEye2 eyeRadius
  || sqrt_lt distanceToRightEye2 eyeRadius
  || (Qltb (Qabs (roundToDouble
                    (num iY - roundToDouble (mouthY + mouthCurve))))
           (num mouthHeight / 2)
      && Qltb (Qabs (num iX - continentCenterX)) (num mouthWidth)).

(** The polar test and the ocean-column test of the loop body. *)
Definition inPolarRows (continent1 : Region) (iY : Z) : bool :=
  Qltb (num iY) (south continent1) || Qle_bool (north continent1) (num iY).

Definition inOceanColumns (continent1 continent2 : Region) (iX : Z) : bool :=
  Qltb (num iX) (west continent1)
  || Qle_bool (east continent2) (num iX)
  || (Qle_bool (east continent1) (num iX) && Qltb (num iX) (west continent2)).

(** The value of the variable [terrain] at the end of the loop body. *)
Definition plotTerrain (iWidth iHeight : Z) (continent1 continent2 : Region)
    (iStartSectorRows iStartSectorCols : Z) (startSectors : StartSectors)
    (iWaterHeight eyeRadius mouthWidth mouthHeight : Z)
    (iX iY : Z) (h : Hidden) : Terrain :=
  if inPolarRows continent1 iY then g_OceanTerrain
  else if inOceanColumns continent1 continent2 iX then g_OceanTerrain
  else
    let iPlotHeight :=
      getHeightAdjustingForStartSector iX iY iWaterHeight
        g_FractalWeight g_CenterWeight g_StartSectorWeight
        continent1 continent2 iStartSectorRows iStartSectorCols
        startSectors h in
    if isInFeature iWidth iHeight continent1 continent2
                   eyeRadius mouthWidth mouthHeight iX iY
       || Qltb iPlotHeight (roundToDouble (num iWaterHeight * g_Cutoff))
    then g_OceanTerrain
    else g_FlatTerrain.

(** One turn of the inner loop of [createSmileyLandmasses]. *)
Definition landmassPlot (iWidth iHeight : Z) (continent1 continent2 : Region)
    (iStartSectorRows iStartSectorCols : Z) (startSectors : StartSectors)
    (iWaterHeight eyeRadius mouthWidth mouthHeight : Z)
    (iX iY : Z) w : World Hidden :=
  let w := setPlotTag iX iY PLOT_TAG_NONE w in
  let terrain :=
    plotTerrain iWidth iHeight continent1 continent2
      iStartSectorRows iStartSectorCols startSectors
      iWaterHeight eyeRadius mouthWidth mouthHeight iX iY (hidden w) in
  let w :=
    if bool_decide (terrain ≠ g_OceanTerrain)
       && bool_decide (terrain ≠ g_CoastTerrain)
    then addLandmassPlotTags iX iY (west continent2) w
    else addWaterPlotTags iX iY (west continent2) w in
  setTerrainType iX iY terrain w.

Definition createSmileyLandmasses (iWidth iHeight : Z)
    (continent1 continent2 : Region)
    (iStartSectorRows iStartSectorCols : Z) (startSectors : StartSectors)
    w : World Hidden :=
  let w :=
    setHidden
      (FractalBuilder_create g_LandmassFractal iWidth iHeight 2 0 (hidden w))
      w in
  let iWaterHeight :=
    FractalBuilder_getHeightFromPercent g_LandmassFractal g_WaterPercent
      (hidden w) in
  let eyeRadius := (iHeight / 12)%Z in
  let mouthWidth := (iHeight / 6)%Z in
  let mouthHeight := (iHeight / 12)%Z in
  scan 0 iWidth 0 iHeight
    (landmassPlot iWidth iHeight continent1 continent2
       iStartSectorRows iStartSectorCols startSectors
       iWaterHeight eyeRadius mouthWidth mouthHeight)
    w.

(** One turn of the inner loop of [expandCoasts]; the draw is made only
    for an ocean plot next to shallow water. *)
Definition expandCoastsPlot (iX iY : Z) w : World Hidden :=
  if bool_decide (getTerrainType iX iY w = Some g_OceanTerrain) then
    if isAdjacentToShallowWater iX iY w then
      let '(draw, h) := getRandomNumber 2 (hidden w) in
      let w := setHidden h w in
      if (draw =? 0)%Z then setTerrainType iX iY g_CoastTerrain w else w
    else w
  else w.

Definition expandCoasts (iWidth iHeight : Z) w : World Hidden :=
  scan 0 iWidth 0 iHeight expandCoastsPlot w.

Definition westContinent (iWidth iHeight : Z) : Region :=
  mkRegion (num g_OceanWaterColumns)
           (num iWidth / 2 - 12)
           (num g_PolarWaterRows)
           (num (iHeight - g_PolarWaterRows))
           0.

Definition eastContinent (iWidth iHeight : Z) : Region :=
  mkRegion (num iWidth / 2 + 12)
           (num (iWidth - g_OceanWaterColumns))
           (num g_PolarWaterRows)
           (num (iHeight - g_PolarWaterRows))
           1.

(** [generateMap] from the configuration row on, up to and including
    the call of [expandCoasts]: the land and water of the map.  The
    result also carries what the later stages are called with. *)
Definition landAndCoasts (mapInfo : MapInfo) w
    : (Z * Z * StartSectors) * World Hidden :=
  let iWidth := gridWidth w in
  let iHeight := gridHeight w in
  let iNumPlayers1 := PlayersLandmass1 mapInfo in
  let iNumPlayers2 := PlayersLandmass2 mapInfo in
  let iStartSectorRows := StartSectorRows mapInfo in
  let iStartSectorCols := StartSectorCols mapInfo in
  let '(iRandom, h) := getRandomNumber 2 (hidden w) in
  let '(iNumPlayers1, iNumPlayers2) :=
    if (iRandom =? 1)%Z then (iNumPlayers2, iNumPlayers1)
    else (iNumPlayers1, iNumPlayers2) in
  let bHumanNearEquator := needHumanNearEquator h in
  let '(startSectors, h) :=
    chooseStartSectors iNumPlayers1 iNumPlayers2
      iStartSectorRows iStartSectorCols bHumanNearEquator h in
  let w := setHidden h w in
  let w :=
    createSmileyLandmasses iWidth iHeight
      (westContinent iWidth iHeight) (eastContinent iWidth iHeight)
      iStartSectorRows iStartSectorCols startSectors w in
  let w := validateAndFixTerrain w in
  let w := expandCoasts iWidth iHeight w in
  ((iNumPlayers1, iNumPlayers2, startSectors), w).

Definition generateMap w : World Hidden :=
  match Maps w !! mapSize w with
  | None => w
  | Some mapInfo =>
      let '((iNumPlayers1, iNumPlayers2, startSectors), w') :=
        landAndCoasts mapInfo w in
      smileyLaterStages mapInfo
        (westContinent (gridWidth w) (gridHeight w))
        (eastContinent (gridWidth w) (gridHeight w))
        iNumPlayers1 iNumPlayers2 startSectors w'
  end.
End Script.
End SmileyFace.

(** ** earthlike.js *)
Module EarthLike.

(** The continent objects of earthlike.js: every bound is an integer
    ([gapStart] is built with [Math.floor]). *)
Record Region : Set := mkRegion {
  west : Z;
  east : Z;
  south : Z;
  north : Z;
  continent : Z
}.

Section Script.
Context `{E : Engine}.
Implicit Type w : World Hidden.

Definition oceanBuffer : Z := 8.
Definition gapStart (iWidth : Z) : Z := iWidth / 2 - oceanBuffer / 2.
Definition gapEnd (iWidth : Z) : Z := gapStart iWidth + oceanBuffer - 1.

Definition westContinent (iWidth iHeight : Z) : Region :=
  mkRegion g_OceanWaterColumns (gapStart iWidth - 1)
           g_PolarWaterRows (iHeight - g_PolarWaterRows) 0.

Definition eastContinent (iWidth iHeight : Z) : Region :=
  mkRegion (gapEnd iWidth + 1) (iWidth - g_OceanWaterColumns)
           g_PolarWaterRows (iHeight - g_PolarWaterRows) 1.

(** One turn of the loop that makes the map a water world. *)
Definition oceanPlot (x y : Z) w : World Hidden :=
  setPlotTag x y PLOT_TAG_NONE (setTerrainType x y g_OceanTerrain w).

Definition fillWithOcean (iWidth iHeight : Z) w : World Hidden :=
  scan 0 iWidth 0 iHeight oceanPlot w.

(** [for (y = south; y <= north; y++) for (x = west; x <= east; x++)] *)
Definition scanRegion (c : Region) (body : Z -> Z -> World Hidden -> World Hidden)
    w : World Hidden :=
  scan (west c) (east c - west c + 1) (south c) (north c - south c + 1) body w.

(** One turn of the primary loop of [createContinent]. *)
Definition primaryPlot (eastWest : Z) (waterThresholdPrimary : Z)
    (x y : Z) w : World Hidden :=
  if bool_decide (getTerrainType x y w = Some g_OceanTerrain) then
    let plotHeight := FractalBuilder_getHeight g_LandmassFractal x y (hidden w) in
    if waterThresholdPrimary <=? plotHeight then
      addLandmassPlotTags x y (num eastWest)
        (setTerrainType x y g_FlatTerrain w)
    else w
  else w.

(** One turn of the secondary loop of [createContinent]. *)
Definition secondaryPlot (eastWest : Z) (waterThresholdSecondary : Z)
    (x y : Z) w : World Hidden :=
  if bool_decide (getTerrainType x y w = Some g_FlatTerrain) then
    let plotHeight := FractalBuilder_getHeight g_LandmassFractal x y (hidden w) in
    if plotHeight <? waterThresholdSecondary then
      addWaterPlotTags x y (num eastWest)
        (setTerrainType x y g_OceanTerrain w)
    else w
  else w.

Definition landWaterPercent : Z := 20.

(** [createContinent] up to the end of its primary loop. *)
Definition primaryPass (iWidth iHeight : Z) (eastContinent continent : Region)
    w : World Hidden :=
  let fractalSizePrimary := 3 in
  let w :=
    setHidden
      (FractalBuilder_create g_LandmassFractal iWidth iHeight
         fractalSizePrimary 0 (hidden w)) w in
  let waterThresholdPrimary :=
    FractalBuilder_getHeightFromPercent g_LandmassFractal landWaterPercent
      (hidden w) in
  scanRegion continent
    (primaryPlot (west eastContinent) waterThresholdPrimary) w.

(** The rest of [createContinent]: the secondary fractal and loop. *)
Definition secondaryPass (iWidth iHeight : Z) (eastContinent continent : Region)
    w : World Hidden :=
  let fractalSizeSecondary := 4 in
  let w :=
    setHidden
      (FractalBuilder_create g_LandmassFractal iWidth iHeight
         fractalSizeSecondary 0 (hidden w)) w in
  let waterThresholdSecondary :=
    FractalBuilder_getHeightFromPercent g_LandmassFractal
      (landWaterPercent + 10) (hidden w) in
  scanRegion continent
    (secondaryPlot (west eastContinent) waterThresholdSecondary) w.

Definition createContinent (iWidth iHeight : Z) (eastContinent continent : Region)
    w : World Hidden :=
  secondaryPass iWidth iHeight eastContinent continent
    (primaryPass iWidth iHeight eastContinent continent w).

(** [generateMap] from the configuration row on, up to the two calls of
    [createContinent]: the classified grid. *)
Definition carveContinents w : World Hidden :=
  let iWidth := gridWidth w in
  let iHeight := gridHeight w in
  let w := fillWithOcean iWidth iHeight w in
  let w :=
    createContinent iWidth iHeight (eastContinent iWidth iHeight)
      (westContinent iWidth iHeight) w in
  createContinent iWidth iHeight (eastContinent iWidth iHeight)
    (eastContinent iWidth iHeight) w.

(** ... and on to the call of the imported [expandCoasts]. *)
Definition landAndCoasts w : World Hidden :=
  let w' := carveContinents w in
  let w' := validateAndFixTerrain w' in
  base_expandCoasts (gridWidth w) (gridHeight w) w'.

Definition generateMap w : World Hidden :=
  match Maps w !! mapSize w with
  | None => w
  | Some mapInfo => earthlikeLaterStages mapInfo (landAndCoasts w)
  end.
End Script.
End EarthLike.

(** ** The coast pass as the specification words it

    Section 4.6: every cell is decided "using only the pre-pass
    classification".  The scan below reads the terrain and the adjacency
    from [w0], the map as it was before the pass, and writes into the
    running map; the draws are made in the same order. *)
Module CoastSnapshot.
Section Spec.
Context `{E : Engine}.
Implicit Type w : World Hidden.

Definition expandCoastsPlot (w0 : World Hidden) (iX iY : Z) w : World Hidden :=
  if bool_decide (getTerrainType iX iY w0 = Some g_OceanTerrain) then
    if isAdjacentToShallowWater iX iY w0 then
      let '(draw, h) := getRandomNumber 2 (hidden w) in
      let w := setHidden h w in
      if draw =? 0 then setTerrainType iX iY g_CoastTerrain w else w
    else w
  else w.

Definition expandCoasts (iWidth iHeight : Z) w : World Hidden :=
  scan 0 iWidth 0 iHeight (expandCoastsPlot w) w.
End Spec.
End CoastSnapshot.

(** ** A reference engine for concrete runs

    A small deterministic engine: a random stream read off the digits of
    a seed, a height field given as a function, hexagonal adjacency
    without wrap-around, and a terrain fixer that turns ocean next to
    land into coast.  It logs the ranges the scripts ask draws for.  Its
    arithmetic is exact: the heights and the cutoff it uses are small
    integers, whose products no rounding changes. *)
Module RefEngine.

Record State : Type := mkState {
  seed : Z;
  requested : list Z;
  fractalSize : Z
}.

Definition draw (range : Z) (st : State) : Z * State :=
  (seed st mod range,
   mkState (seed st / range) (requested st ++ [range]) (fractalSize st)).

Definition create (id iWidth iHeight size flags : Z) (st : State) : State :=
  mkState (seed st) (requested st) size.

(** Odd rows are shifted half a plot to the east. *)
Definition neighbours (x y : Z) : list (Z * Z) :=
  let d := if Z.odd y then 0 else -1 in
  [(x + 1, y); (x - 1, y);
   (x + d, y + 1); (x + d + 1, y + 1);
   (x + d, y - 1); (x + d + 1, y - 1)].

Definition isLand (t : option Terrain) : bool :=
  match t with
  | Some g_FlatTerrain | Some g_HillTerrain | Some g_MountainTerrain => true
  | _ => false
  end.

Definition hasLandNeighbour (g : gmap (Z * Z) Terrain) (x y : Z) : bool :=
  existsb (fun c => isLand (g !! c)) (neighbours x y).

Definition hasCoastNeighbour (g : gmap (Z * Z) Terrain) (x y : Z) : bool :=
  existsb (fun c => bool_decide (g !! c = Some g_CoastTerrain)) (neighbours x y).

Definition fixTerrain (w : World State) : World State :=
  mkWorld (gridWidth w) (gridHeight w) (mapSize w) (Maps w)
    (map_imap
       (fun c t =>
          if bool_decide (t = g_OceanTerrain) && hasLandNeighbour (terrain w) c.1 c.2
          then Some g_CoastTerrain else Some t)
       (terrain w))
    (plotTags w) (hidden w).

(** Bhaskara's rational approximation of [sin (pi t)] on [-1, 1]. *)
Definition sin_pi (t : Q) : Q :=
  let a := Qabs t in
  let p := (a * (1 - a))%Q in
  let s := (16 * p / (5 - 4 * p))%Q in
  if Qle_bool 1 a then 0%Q else if Qle_bool 0 t then s else (- s)%Q.

Section Instance.
(** [heightOf size x y]: the height at [(x, y)] of the fractal built
    with that size.  Heights are on a 0..100 scale, so the height under
    which [p] percent of the plots lie is [p]. *)
Variable heightOf : Z -> Z -> Z -> Z.

Definition engineWith (expand : Z -> Z -> World State -> World State) : Engine :=
  {| Hidden := State;
     g_OceanWaterColumns := 4;
     g_PolarWaterRows := 2;
     g_WaterPercent := 20;
     g_Cutoff := 2;
     g_LandmassFractal := 0;
     g_FractalWeight := 8 # 10;
     g_CenterWeight := 7 # 10;
     g_StartSectorWeight := 5 # 10;
     Math_sin_pi := sin_pi;
     roundToDouble := fun q => q;
     getRandomNumber := draw;
     FractalBuilder_create := create;
     FractalBuilder_getHeight := fun id x y st => heightOf (fractalSize st) x y;
     FractalBuilder_getHeightFromPercent := fun id percent st => percent;
     getHeightAdjustingForStartSector :=
       fun iX iY iWaterHeight fw cw sw c1 c2 rows cols sectors st =>
         num (heightOf (fractalSize st) iX iY);
     needHumanNearEquator := fun st => false;
     chooseStartSectors := fun p1 p2 rows cols human st => ([], st);
     validateAndFixTerrain := fixTerrain;
     isAdjacentToShallowWater := fun x y w => hasCoastNeighbour (terrain w) x y;
     base_expandCoasts := expand;
     smileyLaterStages := fun info c1 c2 p1 p2 sectors w => w;
     earthlikeLaterStages := fun info w => w |}.

(** The imported [expandCoasts] is the routine smiley-face.js carries a
    copy of. *)
Definition engine : Engine :=
  engineWith (@SmileyFace.expandCoasts (engineWith (fun _ _ w => w))).
End Instance.

(** A map of the given size with no plot set yet and one configuration
    row, for map size [0]. *)
Definition standardInfo : MapInfo := mkMapInfo 3 3 4 25 3 3.

Definition blankWorld (iWidth iHeight sd : Z) : World State :=
  mkWorld iWidth iHeight 0 {[0 := standardInfo]} ∅ ∅ (mkState sd [] 0).

(** A map given row by row, south row first. *)
Definition worldOfRows (rows : list (list Terrain)) (sd : Z) : World State :=
  let plots :=
    flat_map
      (fun '(y, row) => imap (fun x t => ((Z.of_nat x, Z.of_nat y), t)) row)
      (imap (fun y row => (y, row)) rows) in
  mkWorld (Z.of_nat (length (default [] (head rows)))) (Z.of_nat (length rows)) 0
          {[0 := standardInfo]} (list_to_map plots) ∅ (mkState sd [] 0).

Definition terrainRow (w : World State) (y : Z) : list (option Terrain) :=
  (fun x => terrain w !! (x, y)) <$> seqZ 0 (gridWidth w).
End RefEngine.

(** ** Vocabulary of the statements *)

(** A location inside the grid, and a world all of whose plots, in either
    layer, lie inside its grid. *)
Definition inGrid (iWidth iHeight : Z) (c : Z * Z) : Prop :=
  (0 ≤ c.1 < iWidth) ∧ (0 ≤ c.2 < iHeight).

#[global] Instance inGrid_dec iWidth iHeight c : Decision (inGrid iWidth iHeight c).
Proof. unfold inGrid. apply _. Defined.

Definition plotsInGrid {X : Type} (w : World X) : Prop :=
  map_Forall (λ c _, inGrid (gridWidth w) (gridHeight w) c) (terrain w)
  ∧ map_Forall (λ c _, inGrid (gridWidth w) (gridHeight w) c) (plotTags w).

(** Two worlds that differ at most in what their plots hold. *)
Definition sameSetup {X : Type} (w1 w2 : World X) : Prop :=
  gridWidth w1 = gridWidth w2 ∧ gridHeight w1 = gridHeight w2
  ∧ mapSize w1 = mapSize w2 ∧ Maps w1 = Maps w2 ∧ hidden w1 = hidden w2.

(** The tag set [addLandmassPlotTags] and [addWaterPlotTags] leave on a
    plot whose tags were just cleared. *)
Definition landmassTags (iX : Z) (col : Q) : gset PlotTag :=
  {[ if Qle_bool col (num iX) then PLOT_TAG_EAST_LANDMASS
     else PLOT_TAG_WEST_LANDMASS ]} ∪ ({[ PLOT_TAG_LANDMASS ]} ∪ ∅).

Definition waterTags (iX : Z) (col : Q) : gset PlotTag :=
  {[ if Qle_bool col (num iX) then PLOT_TAG_EAST_WATER
     else PLOT_TAG_WEST_WATER ]} ∪ ({[ PLOT_TAG_WATER ]} ∪ ∅).

Definition memberTags (t : Terrain) (iX : Z) (col : Q) : gset PlotTag :=
  if bool_decide (t ≠ g_OceanTerrain) && bool_decide (t ≠ g_CoastTerrain)
  then landmassTags iX col else waterTags iX col.

(** Ocean or coast. *)
Definition isWater (t : option Terrain) : Prop :=
  t = Some g_OceanTerrain ∨ t = Some g_CoastTerrain.

Section Vocabulary.
Context `{E : Engine}.
Implicit Type w : World Hidden.
Import SmileyFace.

(** The engine state the landmass loop of [createSmileyLandmasses]
    runs in, and the kind it gives a plot. *)
Definition smileyFractal (iWidth iHeight : Z) w : Hidden :=
  FractalBuilder_create g_LandmassFractal iWidth iHeight 2 0 (hidden w).

Definition smileyKind (iWidth iHeight : Z) (continent1 continent2 : Region)
    (rows cols : Z) (sectors : StartSectors) w (x y : Z) : Terrain :=
  let h := smileyFractal iWidth iHeight w in
  plotTerrain iWidth iHeight continent1 continent2 rows cols sectors
    (FractalBuilder_getHeightFromPercent g_LandmassFractal g_WaterPercent h)
    (iHeight / 12) (iHeight / 6) (iHeight / 12) x y h.

(** The plots [expandCoasts] draws for. *)
Definition eligible (x y : Z) w : Prop :=
  getTerrainType x y w = Some g_OceanTerrain
  ∧ isAdjacentToShallowWater x y w = true.
End Vocabulary.

(** ** Concrete maps *)

(** A height field that is [100] everywhere: above every threshold the
    scripts compute. *)
Definition highGround : Engine := RefEngine.engine (λ _ _ _, 100).

(** The same, except that the fractal of size 4 (the secondary fractal of
    earthlike.js) is [0] at one plot. *)
Definition highGroundWithBay (bayX bayY : Z) : Engine :=
  RefEngine.engine
    (λ size x y, if (size =? 4) && (x =? bayX) && (y =? bayY) then 0 else 100).

(** A 60 x 38 map, no plot set, seed 0. *)
Definition tinyMap : World RefEngine.State := RefEngine.blankWorld 60 38 0.

(** The same map holding one plot of an earlier run. *)
Definition usedTinyMap : World RefEngine.State :=
  setPlotTag 3 3 {[PLOT_TAG_LANDMASS]} (setTerrainType 3 3 g_MountainTerrain tinyMap).

(** One row of six plots: land, its coast, open ocean. *)
Definition shoreRow (sd : Z) : World RefEngine.State :=
  RefEngine.worldOfRows
    [[g_FlatTerrain; g_CoastTerrain; g_OceanTerrain; g_OceanTerrain;
      g_OceanTerrain; g_OceanTerrain]] sd.

(** A map whose size has no row in [GameInfo.Maps]. *)
Definition unknownSizeMap : World RefEngine.State :=
  mkWorld 60 38 1 {[0 := RefEngine.standardInfo]} ∅ ∅ (RefEngine.mkState 0 [] 0).

(** ** PngPreprocessor/Form1.cs *)
Module PngPreprocessor.

(** The channels of [System.Drawing.Color] that the program reads; each
    is a byte, and C# compares and adds them as [int]. *)
Record Color : Set := mkColor {
  R : Z;
  G : Z;
  B : Z
}.

(** A [Bitmap]: its size and [GetPixel]. *)
Record Bitmap : Type := mkBitmap {
  Width : Z;
  Height : Z;
  GetPixel : Z -> Z -> Color
}.

Definition MapColorToLetter (color : Color) : ascii :=
  if (B color >? R color + 10) && (B color >? G color + 10) then "W"%char
  else if (G color >? R color) && (G color >? B color) then "L"%char
  else if (R color >? G color) && (R color >? B color) then
    if (R color >? 200) && (G color >? 200) && (B color <? 150)
    then "L"%char else "L"%char
  else
    let brightness := (R color + G color + B color) ÷ 3 in
    if brightness <? 70 then "L"%char else "L"%char.

Section Platform.
(** [Environment.NewLine], the terminator [StringBuilder.AppendLine]
    writes; the [StringBuilder] is the list of the characters appended. *)
Variable NewLine : list ascii.

(** One turn of the outer loop of [ProcessPlanetImage]. *)
Definition appendRow (bmp : Bitmap) (mapDefinition : list ascii) (y : Z)
    : list ascii :=
  foldl (fun sb x => sb ++ [MapColorToLetter (GetPixel bmp x y)])
        mapDefinition (seqZ 0 (Width bmp))
  ++ NewLine.

Definition ProcessPlanetImage (bmp : Bitmap) : list ascii :=
  foldl (appendRow bmp) [] (seqZ 0 (Height bmp)).
End Platform.
End PngPreprocessor.

(** ** Vocabulary of the further properties *)

(** The plots the loops of [createContinent] of earthlike.js visit. *)
Definition inRegion (c : EarthLike.Region) (x y : Z) : Prop :=
  (EarthLike.west c ≤ x ≤ EarthLike.east c)
  ∧ (EarthLike.south c ≤ y ≤ EarthLike.north c).

#[global] Instance inRegion_dec c x y : Decision (inRegion c x y).
Proof. unfold inRegion. apply _. Defined.

(** The letters of one row of pixels. *)
Definition rowLetters (bmp : PngPreprocessor.Bitmap) (y : Z) : list ascii :=
  (λ x, PngPreprocessor.MapColorToLetter (PngPreprocessor.GetPixel bmp x y))
  <$> seqZ 0 (PngPreprocessor.Width bmp).

(** What a plot holds: its kind and its tag set. *)
Definition plotOf {X : Type} (w : World X) (c : Z * Z)
    : option Terrain * gset PlotTag :=
  (terrain w !! c, getPlotTags c.1 c.2 w).

(** What [addLandmassPlotTags] and [addWaterPlotTags] make of a tag set. *)
Definition withLandmassTags (iX : Z) (col : Q) (T : gset PlotTag) : gset PlotTag :=
  {[ if Qle_bool col (num iX) then PLOT_TAG_EAST_LANDMASS
     else PLOT_TAG_WEST_LANDMASS ]} ∪ ({[ PLOT_TAG_LANDMASS ]} ∪ T).

Definition withWaterTags (iX : Z) (col : Q) (T : gset PlotTag) : gset PlotTag :=
  {[ if Qle_bool col (num iX) then PLOT_TAG_EAST_WATER
     else PLOT_TAG_WEST_WATER ]} ∪ ({[ PLOT_TAG_WATER ]} ∪ T).

Section FurtherVocabulary.
Context `{E : Engine}.
Implicit Type w : World Hidden.

(** The engine states in which the two loops of [createContinent] run,
    when it is called in state [h]. *)
Definition primaryFractal (iWidth iHeight : Z) (h : Hidden) : Hidden :=
  FractalBuilder_create g_LandmassFractal iWidth iHeight 3 0 h.

Definition secondaryFractal (iWidth iHeight : Z) (h : Hidden) : Hidden :=
  FractalBuilder_create g_LandmassFractal iWidth iHeight 4 0
    (primaryFractal iWidth iHeight h).

(** The test of the primary loop, and the negation of the test of the
    secondary loop, at a plot. *)
Definition raisedByPrimary (iWidth iHeight : Z) (h : Hidden) (x y : Z) : bool :=
  let h1 := primaryFractal iWidth iHeight h in
  FractalBuilder_getHeightFromPercent g_LandmassFractal 20 h1
  <=? FractalBuilder_getHeight g_LandmassFractal x y h1.

Definition keptBySecondary (iWidth iHeight : Z) (h : Hidden) (x y : Z) : bool :=
  let h2 := secondaryFractal iWidth iHeight h in
  negb (FractalBuilder_getHeight g_LandmassFractal x y h2
        <? FractalBuilder_getHeightFromPercent g_LandmassFractal 30 h2).

(** The kind and the tags [createContinent], called in state [h], leaves
    on an ocean plot of its region that carried the tags [T]. *)
Definition carvedKind (iWidth iHeight : Z) (h : Hidden) (x y : Z) : Terrain :=
  if raisedByPrimary iWidth iHeight h x y && keptBySecondary iWidth iHeight h x y
  then g_FlatTerrain else g_OceanTerrain.

Definition carvedTags (iWidth iHeight : Z) (h : Hidden) (col : Z) (x y : Z)
    (T : gset PlotTag) : gset PlotTag :=
  if raisedByPrimary iWidth iHeight h x y then
    if keptBySecondary iWidth iHeight h x y
    then withLandmassTags x (num col) T
    else withWaterTags x (num col) (withLandmassTags x (num col) T)
  else T.

(** The plot functions of the two loops of [createContinent]. *)
Definition primaryStep (eastWest threshold : Z) (x y : Z) (h : Hidden)
    (p : option Terrain * gset PlotTag) : option Terrain * gset PlotTag :=
  if bool_decide (p.1 = Some g_OceanTerrain)
     && (threshold <=? FractalBuilder_getHeight g_LandmassFractal x y h)
  then (Some g_FlatTerrain, withLandmassTags x (num eastWest) p.2)
  else p.

Definition secondaryStep (eastWest threshold : Z) (x y : Z) (h : Hidden)
    (p : option Terrain * gset PlotTag) : option Terrain * gset PlotTag :=
  if bool_decide (p.1 = Some g_FlatTerrain)
     && (FractalBuilder_getHeight g_LandmassFractal x y h <? threshold)
  then (Some g_OceanTerrain, withWaterTags x (num eastWest) p.2)
  else p.

(** The kind and the tags of a plot of the grid when both continents
    are carved. *)
Definition classifiedKind w (x y : Z) : Terrain :=
  let iWidth := gridWidth w in
  let iHeight := gridHeight w in
  if decide (inRegion (EarthLike.westContinent iWidth iHeight) x y)
  then carvedKind iWidth iHeight (hidden w) x y
  else if decide (inRegion (EarthLike.eastContinent iWidth iHeight) x y)
  then carvedKind iWidth iHeight
         (secondaryFractal iWidth iHeight (hidden w)) x y
  else g_OceanTerrain.

Definition classifiedTags w (x y : Z) : gset PlotTag :=
  let iWidth := gridWidth w in
  let iHeight := gridHeight w in
  let col := EarthLike.west (EarthLike.eastContinent iWidth iHeight) in
  if decide (inRegion (EarthLike.westContinent iWidth iHeight) x y)
  then carvedTags iWidth iHeight (hidden w) col x y ∅
  else if decide (inRegion (EarthLike.eastContinent iWidth iHeight) x y)
  then carvedTags iWidth iHeight
         (secondaryFractal iWidth iHeight (hidden w)) col x y ∅
  else ∅.
End FurtherVocabulary.

(** A 2 x 2 bitmap: two blue pixels over a red and a green one. *)
Definition fourPixels : PngPreprocessor.Bitmap :=
  PngPreprocessor.mkBitmap 2 2
    (λ x y, if y =? 0 then PngPreprocessor.mkColor 10 20 200
            else if x =? 0 then PngPreprocessor.mkColor 220 30 30
            else PngPreprocessor.mkColor 30 220 30).

Definition CRLF : list ascii := ["013"%char; "010"%char].

(** A region with [west > east]. *)
Definition emptyRegion : EarthLike.Region := EarthLike.mkRegion 9 5 2 36 0.

(** A 60 x 8 map, too low for the face of smiley-face.js. *)
Definition lowMap : World RefEngine.State := RefEngine.blankWorld 60 8 0.

(** One row without ocean. *)
Definition landRow : World RefEngine.State :=
  RefEngine.worldOfRows
    [[g_FlatTerrain; g_CoastTerrain; g_HillTerrain; g_MountainTerrain]] 0.

(** * Properties *)

(** ** The plot loops *)

Lemma scan_cells {S : Type} x0 nx y0 ny (body : Z -> Z -> S -> S) (s : S) :
  scan x0 nx y0 ny body s = foldl (visit body) s (cells x0 nx y0 ny).
Proof.
  unfold scan, cells. generalize (seqZ y0 ny) as ys. intros ys.
  revert s. induction ys as [|y ys IH]; intros s; [reflexivity|].
  simpl. rewrite foldl_app, foldl_fmap. apply IH.
Qed.

Lemma elem_of_cells x0 nx y0 ny x y :
  (x, y) ∈ cells x0 nx y0 ny ↔ (x0 ≤ x < x0 + nx ∧ y0 ≤ y < y0 + ny).
Proof.
  unfold cells. rewrite list_elem_of_bind. split.
  - intros (y' & Hin & Hy). apply list_elem_of_fmap in Hin as (x' & Heq & Hx).
    inversion Heq; subst. apply elem_of_seqZ in Hx, Hy. lia.
  - intros [Hx Hy]. exists y. split; [|by apply elem_of_seqZ].
    apply list_elem_of_fmap. exists x. split; [done|by apply elem_of_seqZ].
Qed.

Lemma NoDup_cells x0 nx y0 ny : NoDup (cells x0 nx y0 ny).
Proof.
  unfold cells. apply NoDup_bind; [| |apply NoDup_seqZ].
  - intros y1 y2 [x y] _ _ H1 H2.
    apply list_elem_of_fmap in H1 as (? & H1 & _).
    apply list_elem_of_fmap in H2 as (? & H2 & _). congruence.
  - intros y _. apply NoDup_fmap_2; [|apply NoDup_seqZ].
    intros x1 x2 Heq. congruence.
Qed.

(** A plot the loops visit splits the visiting order in the plots before
    it and the plots after it, and it is in neither. *)
Lemma cells_split x0 nx y0 ny x y :
  x0 ≤ x < x0 + nx → y0 ≤ y < y0 + ny →
  ∃ before after,
    cells x0 nx y0 ny = before ++ (x, y) :: after
    ∧ ((x, y) ∉ before) ∧ ((x, y) ∉ after).
Proof.
  intros Hx Hy.
  assert (Hin : (x, y) ∈ cells x0 nx y0 ny) by (apply elem_of_cells; lia).
  apply list_elem_of_split in Hin as (before & after & Heq).
  exists before, after. split; [done|].
  pose proof (NoDup_cells x0 nx y0 ny) as Hnd. rewrite Heq in Hnd.
  apply NoDup_app in Hnd as (_ & Hdisj & Hnd).
  apply NoDup_cons in Hnd as [Hnot _]. split; [|done].
  intros Hb. apply (Hdisj _ Hb). left.
Qed.

Section Scans.
Context {S A : Type} (get : S -> gmap (Z * Z) A) (body : Z -> Z -> S -> S).

(** The body of the loop touches the layer [get] at its own plot only. *)
Hypothesis body_local :
  ∀ x y s c, c ≠ (x, y) → get (body x y s) !! c = get s !! c.

Lemma visits_elsewhere l s c :
  c ∉ l → get (foldl (visit body) s l) !! c = get s !! c.
Proof.
  revert s. induction l as [|[x y] l IH]; intros s Hc; [done|].
  apply not_elem_of_cons in Hc as [Hne Hc]. simpl.
  rewrite IH by done. unfold visit; simpl. by apply body_local.
Qed.

Lemma scan_elsewhere x0 nx y0 ny s x y :
  ¬ (x0 ≤ x < x0 + nx ∧ y0 ≤ y < y0 + ny) →
  get (scan x0 nx y0 ny body s) !! (x, y) = get s !! (x, y).
Proof.
  intros Hout. rewrite scan_cells. apply visits_elsewhere.
  by rewrite elem_of_cells.
Qed.

(** What a visited plot holds at the end is what its own turn left. *)
Lemma visits_at before after s x y :
  (x, y) ∉ after →
  get (foldl (visit body) s (before ++ (x, y) :: after)) !! (x, y)
  = get (body x y (foldl (visit body) s before)) !! (x, y).
Proof.
  intros Hafter. rewrite foldl_app. simpl.
  by rewrite visits_elsewhere.
Qed.

(** A property every turn keeps holds at the end. *)
Lemma visits_keep (P : S -> Prop) l s :
  (∀ x y s, P s → P (body x y s)) → P s → P (foldl (visit body) s l).
Proof.
  intros Hstep. revert s. induction l as [|[x y] l IH]; intros s Hs; [done|].
  simpl. apply IH. by apply Hstep.
Qed.

(** When every turn overwrites its plot by a value [v x y] that does not
    depend on the running state (as long as [P] holds of it), the scan
    fills the rectangle with [v]. *)
Lemma scan_fill (P : S -> Prop) (v : Z -> Z -> A) x0 nx y0 ny s x y :
  (∀ x y s, P s → P (body x y s)) →
  (∀ x y s, P s → get (body x y s) !! (x, y) = Some (v x y)) →
  P s →
  x0 ≤ x < x0 + nx → y0 ≤ y < y0 + ny →
  get (scan x0 nx y0 ny body s) !! (x, y) = Some (v x y).
Proof.
  intros Hkeep Hwrite Hs Hx Hy.
  destruct (cells_split x0 nx y0 ny x y Hx Hy) as (before & after & Heq & _ & Ha).
  rewrite scan_cells, Heq, visits_at by done.
  apply Hwrite. by apply visits_keep.
Qed.
End Scans.

Lemma scan_keep {S : Type} (body : Z -> Z -> S -> S) (P : S -> Prop)
    x0 nx y0 ny s :
  (∀ x y s, P s → P (body x y s)) → P s → P (scan x0 nx y0 ny body s).
Proof.
  intros Hstep Hs. rewrite scan_cells.
  revert s Hs. induction (cells x0 nx y0 ny) as [|[x y] l IH]; intros s Hs; [done|].
  simpl. apply IH. by apply Hstep.
Qed.

(** ** Numbers and worlds *)

Lemma Qltb_lt a b : Qltb a b = true ↔ (a < b)%Q.
Proof.
  unfold Qltb. rewrite negb_true_iff. split.
  - intros Hf. apply Qnot_le_lt. intros Hle.
    apply Qle_bool_iff in Hle. congruence.
  - intros Hlt. destruct (Qle_bool b a) eqn:Hle; [|done].
    apply Qle_bool_iff in Hle. exfalso. by apply (Qlt_not_le a b).
Qed.

Lemma World_eq {X : Type} (w1 w2 : World X) :
  gridWidth w1 = gridWidth w2 → gridHeight w1 = gridHeight w2 →
  mapSize w1 = mapSize w2 → Maps w1 = Maps w2 →
  terrain w1 = terrain w2 → plotTags w1 = plotTags w2 →
  hidden w1 = hidden w2 → w1 = w2.
Proof. destruct w1, w2; simpl; intros; by subst. Qed.


Lemma addLandmassPlotTags_cleared {X} x y col (T : gset PlotTag) (w : World X) :
  plotTags w !! (x, y) = Some T →
  plotTags (addLandmassPlotTags x y col w)
  = <[(x, y) := {[ if Qle_bool col (num x) then PLOT_TAG_EAST_LANDMASS
                   else PLOT_TAG_WEST_LANDMASS ]} ∪ ({[ PLOT_TAG_LANDMASS ]} ∪ T)]>
      (plotTags w).
Proof.
  intros HT. unfold addLandmassPlotTags, addPlotTag, getPlotTags.
  destruct (Qle_bool col (num x)); simpl;
    rewrite HT, lookup_insert_eq, insert_insert_eq; done.
Qed.

Lemma addWaterPlotTags_cleared {X} x y col (T : gset PlotTag) (w : World X) :
  plotTags w !! (x, y) = Some T →
  plotTags (addWaterPlotTags x y col w)
  = <[(x, y) := {[ if Qle_bool col (num x) then PLOT_TAG_EAST_WATER
                   else PLOT_TAG_WEST_WATER ]} ∪ ({[ PLOT_TAG_WATER ]} ∪ T)]>
      (plotTags w).
Proof.
  intros HT. unfold addWaterPlotTags, addPlotTag, getPlotTags.
  destruct (Qle_bool col (num x)); simpl;
    rewrite HT, lookup_insert_eq, insert_insert_eq; done.
Qed.

Lemma addLandmassPlotTags_rest {X} x y col (w : World X) :
  terrain (addLandmassPlotTags x y col w) = terrain w
  ∧ hidden (addLandmassPlotTags x y col w) = hidden w
  ∧ gridWidth (addLandmassPlotTags x y col w) = gridWidth w
  ∧ gridHeight (addLandmassPlotTags x y col w) = gridHeight w
  ∧ mapSize (addLandmassPlotTags x y col w) = mapSize w
  ∧ Maps (addLandmassPlotTags x y col w) = Maps w.
Proof. unfold addLandmassPlotTags. by destruct (Qle_bool col (num x)). Qed.

Lemma addWaterPlotTags_rest {X} x y col (w : World X) :
  terrain (addWaterPlotTags x y col w) = terrain w
  ∧ hidden (addWaterPlotTags x y col w) = hidden w
  ∧ gridWidth (addWaterPlotTags x y col w) = gridWidth w
  ∧ gridHeight (addWaterPlotTags x y col w) = gridHeight w
  ∧ mapSize (addWaterPlotTags x y col w) = mapSize w
  ∧ Maps (addWaterPlotTags x y col w) = Maps w.
Proof. unfold addWaterPlotTags. by destruct (Qle_bool col (num x)). Qed.

Lemma addLandmassPlotTags_other {X} x y col (w : World X) c :
  c ≠ (x, y) → plotTags (addLandmassPlotTags x y col w) !! c = plotTags w !! c.
Proof.
  intros Hne. unfold addLandmassPlotTags, addPlotTag.
  destruct (Qle_bool col (num x)); simpl; by rewrite !lookup_insert_ne.
Qed.

Lemma addWaterPlotTags_other {X} x y col (w : World X) c :
  c ≠ (x, y) → plotTags (addWaterPlotTags x y col w) !! c = plotTags w !! c.
Proof.
  intros Hne. unfold addWaterPlotTags, addPlotTag.
  destruct (Qle_bool col (num x)); simpl; by rewrite !lookup_insert_ne.
Qed.

(** ** smiley-face.js: the landmass loop *)
Section SmileyLandmass.
Context `{E : Engine}.
Implicit Type w : World Hidden.
Import SmileyFace.

Variables (iWidth iHeight : Z) (continent1 continent2 : Region).
Variables (iStartSectorRows iStartSectorCols : Z) (startSectors : StartSectors).
Variables (iWaterHeight eyeRadius mouthWidth mouthHeight : Z).

Let body :=
  landmassPlot iWidth iHeight continent1 continent2
    iStartSectorRows iStartSectorCols startSectors
    iWaterHeight eyeRadius mouthWidth mouthHeight.
Let kind (h : Hidden) (x y : Z) :=
  plotTerrain iWidth iHeight continent1 continent2
    iStartSectorRows iStartSectorCols startSectors
    iWaterHeight eyeRadius mouthWidth mouthHeight x y h.

Lemma landmassPlot_frame x y w :
  hidden (body x y w) = hidden w
  ∧ gridWidth (body x y w) = gridWidth w
  ∧ gridHeight (body x y w) = gridHeight w
  ∧ mapSize (body x y w) = mapSize w
  ∧ Maps (body x y w) = Maps w.
Proof.
  unfold body, landmassPlot. simpl.
  match goal with |- context [if ?b then _ else _] => destruct b end.
  - pose proof (addLandmassPlotTags_rest x y (west continent2)
                  (setPlotTag x y PLOT_TAG_NONE w)) as (_ & -> & -> & -> & -> & ->).
    done.
  - pose proof (addWaterPlotTags_rest x y (west continent2)
                  (setPlotTag x y PLOT_TAG_NONE w)) as (_ & -> & -> & -> & -> & ->).
    done.
Qed.

Lemma landmassPlot_terrain x y w :
  terrain (body x y w) = <[(x, y) := kind (hidden w) x y]> (terrain w).
Proof.
  unfold body, kind, landmassPlot. simpl.
  match goal with |- context [if ?b then _ else _] => destruct b end.
  - by pose proof (addLandmassPlotTags_rest x y (west continent2)
                     (setPlotTag x y PLOT_TAG_NONE w)) as (-> & _).
  - by pose proof (addWaterPlotTags_rest x y (west continent2)
                     (setPlotTag x y PLOT_TAG_NONE w)) as (-> & _).
Qed.

Lemma landmassPlot_tags x y w :
  plotTags (body x y w)
  = <[(x, y) := memberTags (kind (hidden w) x y) x (west continent2)]>
      (plotTags w).
Proof.
  unfold body, kind, landmassPlot, memberTags. simpl.
  match goal with |- context [if ?b then _ else _] => destruct b end.
  - rewrite (addLandmassPlotTags_cleared x y _ ∅) by apply lookup_insert_eq.
    simpl. by rewrite insert_insert_eq.
  - rewrite (addWaterPlotTags_cleared x y _ ∅) by apply lookup_insert_eq.
    simpl. by rewrite insert_insert_eq.
Qed.

Lemma landmass_scan_hidden w :
  hidden (scan 0 iWidth 0 iHeight body w) = hidden w.
Proof.
  apply (scan_keep body (λ s, hidden s = hidden w)); [|done].
  intros x y s Hs. by destruct (landmassPlot_frame x y s) as (-> & _).
Qed.

Lemma landmass_scan_terrain w x y :
  0 ≤ x < iWidth → 0 ≤ y < iHeight →
  terrain (scan 0 iWidth 0 iHeight body w) !! (x, y)
  = Some (kind (hidden w) x y).
Proof.
  intros Hx Hy.
  apply (scan_fill terrain body) with (P := λ s, hidden s = hidden w);
    try done; try lia.
  - intros x' y' s c Hne. rewrite landmassPlot_terrain.
    apply lookup_insert_ne. congruence.
  - intros x' y' s Hs. by destruct (landmassPlot_frame x' y' s) as (-> & _).
  - intros x' y' s Hs. rewrite landmassPlot_terrain, Hs. apply lookup_insert_eq.
Qed.

Lemma landmass_scan_tags w x y :
  0 ≤ x < iWidth → 0 ≤ y < iHeight →
  plotTags (scan 0 iWidth 0 iHeight body w) !! (x, y)
  = Some (memberTags (kind (hidden w) x y) x (west continent2)).
Proof.
  intros Hx Hy.
  apply (scan_fill plotTags body) with
    (P := λ s, hidden s = hidden w)
    (v := λ x y, memberTags (kind (hidden w) x y) x (west continent2));
    try done; try lia.
  - intros x' y' s c Hne. rewrite landmassPlot_tags.
    apply lookup_insert_ne. congruence.
  - intros x' y' s Hs. by destruct (landmassPlot_frame x' y' s) as (-> & _).
  - intros x' y' s Hs. rewrite landmassPlot_tags, Hs. apply lookup_insert_eq.
Qed.

Lemma landmass_scan_outside w x y :
  ¬ (0 ≤ x < iWidth ∧ 0 ≤ y < iHeight) →
  terrain (scan 0 iWidth 0 iHeight body w) !! (x, y) = terrain w !! (x, y)
  ∧ plotTags (scan 0 iWidth 0 iHeight body w) !! (x, y) = plotTags w !! (x, y).
Proof.
  intros Hout. split.
  - apply (scan_elsewhere terrain body); [|lia].
    intros x' y' s c Hne. rewrite landmassPlot_terrain.
    apply lookup_insert_ne. congruence.
  - apply (scan_elsewhere plotTags body); [|lia].
    intros x' y' s c Hne. rewrite landmassPlot_tags.
    apply lookup_insert_ne. congruence.
Qed.

Lemma landmass_scan_frame w :
  gridWidth (scan 0 iWidth 0 iHeight body w) = gridWidth w
  ∧ gridHeight (scan 0 iWidth 0 iHeight body w) = gridHeight w
  ∧ mapSize (scan 0 iWidth 0 iHeight body w) = mapSize w
  ∧ Maps (scan 0 iWidth 0 iHeight body w) = Maps w.
Proof.
  apply (scan_keep body
           (λ s, gridWidth s = gridWidth w ∧ gridHeight s = gridHeight w
                 ∧ mapSize s = mapSize w ∧ Maps s = Maps w)); [|done].
  intros x y s (<- & <- & <- & <-).
  by destruct (landmassPlot_frame x y s) as (_ & -> & -> & -> & ->).
Qed.
End SmileyLandmass.

Section SmileyFacts.
Context `{E : Engine}.
Implicit Type w : World Hidden.
Import SmileyFace.

Lemma createSmileyLandmasses_terrain iWidth iHeight c1 c2 rows cols sectors w x y :
  0 ≤ x < iWidth → 0 ≤ y < iHeight →
  terrain (createSmileyLandmasses iWidth iHeight c1 c2 rows cols sectors w)
    !! (x, y)
  = Some (smileyKind iWidth iHeight c1 c2 rows cols sectors w x y).
Proof.
  intros Hx Hy. unfold createSmileyLandmasses, smileyKind, smileyFractal.
  by rewrite landmass_scan_terrain.
Qed.

Lemma createSmileyLandmasses_tags iWidth iHeight c1 c2 rows cols sectors w x y :
  0 ≤ x < iWidth → 0 ≤ y < iHeight →
  plotTags (createSmileyLandmasses iWidth iHeight c1 c2 rows cols sectors w)
    !! (x, y)
  = Some (memberTags (smileyKind iWidth iHeight c1 c2 rows cols sectors w x y)
            x (west c2)).
Proof.
  intros Hx Hy. unfold createSmileyLandmasses, smileyKind, smileyFractal.
  by rewrite landmass_scan_tags.
Qed.

Lemma createSmileyLandmasses_outside iWidth iHeight c1 c2 rows cols sectors w x y :
  ¬ (0 ≤ x < iWidth ∧ 0 ≤ y < iHeight) →
  terrain (createSmileyLandmasses iWidth iHeight c1 c2 rows cols sectors w)
    !! (x, y) = terrain w !! (x, y)
  ∧ plotTags (createSmileyLandmasses iWidth iHeight c1 c2 rows cols sectors w)
      !! (x, y) = plotTags w !! (x, y).
Proof.
  intros Hout. unfold createSmileyLandmasses.
  match goal with |- context [scan 0 iWidth 0 iHeight ?b ?s] =>
    exact (landmass_scan_outside iWidth iHeight c1 c2 rows cols sectors
             _ _ _ _ s x y Hout)
  end.
Qed.

Lemma createSmileyLandmasses_frame iWidth iHeight c1 c2 rows cols sectors w :
  let w' := createSmileyLandmasses iWidth iHeight c1 c2 rows cols sectors w in
  gridWidth w' = gridWidth w ∧ gridHeight w' = gridHeight w
  ∧ mapSize w' = mapSize w ∧ Maps w' = Maps w
  ∧ hidden w' = smileyFractal iWidth iHeight w.
Proof.
  unfold createSmileyLandmasses, smileyFractal. cbv zeta.
  rewrite landmass_scan_hidden.
  match goal with |- context [scan 0 iWidth 0 iHeight ?b ?s] =>
    pose proof (landmass_scan_frame iWidth iHeight c1 c2 rows cols sectors
                  (FractalBuilder_getHeightFromPercent g_LandmassFractal
                     g_WaterPercent (hidden s))
                  (iHeight / 12) (iHeight / 6) (iHeight / 12) s)
      as (-> & -> & -> & ->)
  end.
  done.
Qed.

(** The classifier gives only ocean and flat land. *)
Lemma plotTerrain_kinds iWidth iHeight c1 c2 rows cols sectors wh er mw mh x y h :
  plotTerrain iWidth iHeight c1 c2 rows cols sectors wh er mw mh x y h
    = g_OceanTerrain
  ∨ plotTerrain iWidth iHeight c1 c2 rows cols sectors wh er mw mh x y h
    = g_FlatTerrain.
Proof.
  unfold plotTerrain.
  repeat match goal with |- context [if ?b then _ else _] => destruct b end;
    auto.
Qed.

(** The kind of a plot in the columns between the continents, in a
    polar row, and under the shape mask. *)
Lemma plotTerrain_gap iWidth iHeight c1 c2 rows cols sectors wh er mw mh x y h :
  (east c1 <= num x)%Q → (num x < west c2)%Q →
  plotTerrain iWidth iHeight c1 c2 rows cols sectors wh er mw mh x y h
  = g_OceanTerrain.
Proof.
  intros Hge Hlt. unfold plotTerrain.
  destruct (inPolarRows c1 y); [done|].
  assert (inOceanColumns c1 c2 x = true) as ->; [|done].
  unfold inOceanColumns.
  apply Qle_bool_iff in Hge. apply Qltb_lt in Hlt. rewrite Hge, Hlt.
  by rewrite orb_true_r.
Qed.

Lemma plotTerrain_polar iWidth iHeight c1 c2 rows cols sectors wh er mw mh x y h :
  (num y < south c1)%Q ∨ (north c1 <= num y)%Q →
  plotTerrain iWidth iHeight c1 c2 rows cols sectors wh er mw mh x y h
  = g_OceanTerrain.
Proof.
  intros Hy. unfold plotTerrain.
  assert (inPolarRows c1 y = true) as ->; [|done].
  unfold inPolarRows. destruct Hy as [Hy|Hy].
  - apply Qltb_lt in Hy. by rewrite Hy.
  - apply Qle_bool_iff in Hy. rewrite Hy. by rewrite orb_true_r.
Qed.

Lemma plotTerrain_masked iWidth iHeight c1 c2 rows cols sectors wh er mw mh x y h :
  isInFeature iWidth iHeight c1 c2 er mw mh x y = true →
  plotTerrain iWidth iHeight c1 c2 rows cols sectors wh er mw mh x y h
  = g_OceanTerrain.
Proof.
  intros Hmask. unfold plotTerrain. rewrite Hmask. simpl.
  by repeat match goal with |- context [if ?b then _ else _] => destruct b end.
Qed.

(** What the landmass loop leaves: polar rows are ocean, and the tags
    of every plot agree with its kind. *)
Lemma smiley_polar_rows_are_ocean iWidth iHeight c1 c2 rows cols sectors w x y :
  0 ≤ x < iWidth → 0 ≤ y < iHeight →
  (num y < south c1)%Q ∨ (north c1 <= num y)%Q →
  terrain (createSmileyLandmasses iWidth iHeight c1 c2 rows cols sectors w)
    !! (x, y) = Some g_OceanTerrain.
Proof.
  intros Hx Hy Hpolar. rewrite createSmileyLandmasses_terrain by done.
  unfold smileyKind. by rewrite plotTerrain_polar.
Qed.

Lemma smiley_tags_follow_terrain iWidth iHeight c1 c2 rows cols sectors w x y :
  0 ≤ x < iWidth → 0 ≤ y < iHeight →
  ∃ t T,
    terrain (createSmileyLandmasses iWidth iHeight c1 c2 rows cols sectors w)
      !! (x, y) = Some t
    ∧ plotTags (createSmileyLandmasses iWidth iHeight c1 c2 rows cols sectors w)
        !! (x, y) = Some T
    ∧ ((t = g_FlatTerrain ∧ ∀ tag, tag ∈ T → isLandmassTag tag = true)
       ∨ (t = g_OceanTerrain ∧ ∀ tag, tag ∈ T → isWaterTag tag = true)).
Proof.
  intros Hx Hy. eexists _, _.
  split; [by apply createSmileyLandmasses_terrain|].
  split; [by apply createSmileyLandmasses_tags|].
  unfold smileyKind.
  match goal with |- context [plotTerrain ?a ?b ?c ?d ?e ?f ?g ?h ?i ?j ?k ?l ?m ?n] =>
    destruct (plotTerrain_kinds a b c d e f g h i j k l m n) as [-> | ->]
  end.
  - right. split; [done|]. intros tag. unfold memberTags, waterTags. simpl.
    rewrite !elem_of_union, !elem_of_singleton, elem_of_empty.
    intros [->|[->|[]]]; [|done]. by destruct (Qle_bool _ _).
  - left. split; [done|]. intros tag. unfold memberTags, landmassTags. simpl.
    rewrite !elem_of_union, !elem_of_singleton, elem_of_empty.
    intros [->|[->|[]]]; [|done]. by destruct (Qle_bool _ _).
Qed.
End SmileyFacts.

(** ** smiley-face.js: the coast pass *)

Section CoastFacts.
Context `{E : Engine}.
Implicit Type w : World Hidden.
Import SmileyFace.

Lemma expandCoastsPlot_skip x y w :
  ¬ eligible x y w → expandCoastsPlot x y w = w.
Proof.
  unfold eligible, expandCoastsPlot. intros Hno.
  case_bool_decide as Hocean; [|done].
  destruct (isAdjacentToShallowWater x y w); [|done].
  by destruct Hno.
Qed.

Lemma expandCoastsPlot_draw x y w :
  eligible x y w →
  expandCoastsPlot x y w
  = if (getRandomNumber 2 (hidden w)).1 =? 0
    then setTerrainType x y g_CoastTerrain
           (setHidden (getRandomNumber 2 (hidden w)).2 w)
    else setHidden (getRandomNumber 2 (hidden w)).2 w.
Proof.
  unfold eligible, expandCoastsPlot. intros [Hocean Hadj].
  rewrite bool_decide_eq_true_2, Hadj by done.
  by destruct (getRandomNumber 2 (hidden w)) as [d h].
Qed.

Lemma expandCoastsPlot_local x y w c :
  c ≠ (x, y) → terrain (expandCoastsPlot x y w) !! c = terrain w !! c.
Proof.
  intros Hne. destruct (decide (eligible x y w)) as [Hel|Hno].
  - rewrite expandCoastsPlot_draw by done.
    destruct (_ =? 0); simpl; [|done].
    apply lookup_insert_ne. congruence.
  - by rewrite expandCoastsPlot_skip.
Qed.

Lemma expandCoastsPlot_at x y w :
  terrain (expandCoastsPlot x y w) !! (x, y) = terrain w !! (x, y)
  ∨ (eligible x y w ∧ (getRandomNumber 2 (hidden w)).1 = 0
     ∧ terrain (expandCoastsPlot x y w) !! (x, y) = Some g_CoastTerrain).
Proof.
  destruct (decide (eligible x y w)) as [Hel|Hno].
  - rewrite expandCoastsPlot_draw by done.
    destruct (_ =? 0) eqn:Hd; simpl; [|by left].
    right. split; [done|]. split; [lia|]. apply lookup_insert_eq.
  - left. by rewrite expandCoastsPlot_skip.
Qed.

(** The turn of a plot that is ocean and next to shallow water: one draw
    of range 2, coast iff the draw is 0. *)
Lemma expandCoastsPlot_decision x y w :
  getTerrainType x y w = Some g_OceanTerrain →
  isAdjacentToShallowWater x y w = true →
  hidden (expandCoastsPlot x y w) = (getRandomNumber 2 (hidden w)).2
  ∧ (terrain (expandCoastsPlot x y w) !! (x, y) = Some g_CoastTerrain
     ↔ (getRandomNumber 2 (hidden w)).1 = 0)
  ∧ (terrain (expandCoastsPlot x y w) !! (x, y) = Some g_OceanTerrain
     ↔ (getRandomNumber 2 (hidden w)).1 ≠ 0).
Proof.
  intros Hocean Hadj. rewrite expandCoastsPlot_draw by done.
  unfold getTerrainType in *.
  destruct (_ =? 0) eqn:Hd; simpl.
  - rewrite lookup_insert_eq. apply Z.eqb_eq in Hd.
    split; [done|]. split; split; intros; congruence.
  - apply Z.eqb_neq in Hd. rewrite Hocean.
    split; [done|]. split; split; intros; congruence.
Qed.

(** The pass never touches the tags. *)
Lemma expandCoasts_tags iWidth iHeight w :
  plotTags (expandCoasts iWidth iHeight w) = plotTags w.
Proof.
  unfold expandCoasts.
  apply (scan_keep expandCoastsPlot (λ s, plotTags s = plotTags w)); [|done].
  intros x y s <-. destruct (decide (eligible x y s)) as [Hel|Hno].
  - rewrite expandCoastsPlot_draw by done. by destruct (_ =? 0).
  - by rewrite expandCoastsPlot_skip.
Qed.

(** The map the scan sees when it reaches a plot: the plots before it
    in scan order hold what the pass leaves in them, all others what
    they held before the pass; and what the turn of the plot decides on
    that map is final. *)
Lemma expandCoasts_live iWidth iHeight w x y before after :
  cells 0 iWidth 0 iHeight = before ++ (x, y) :: after →
  let live := foldl (visit expandCoastsPlot) w before in
  (∀ c, c ∈ before →
     terrain live !! c = terrain (expandCoasts iWidth iHeight w) !! c)
  ∧ (∀ c, c ∉ before → terrain live !! c = terrain w !! c)
  ∧ terrain (expandCoasts iWidth iHeight w) !! (x, y)
    = terrain (expandCoastsPlot x y live) !! (x, y).
Proof.
  intros Heq live.
  pose proof (NoDup_cells 0 iWidth 0 iHeight) as Hnd. rewrite Heq in Hnd.
  apply NoDup_app in Hnd as (_ & Hdisj & Hnd).
  apply NoDup_cons in Hnd as [Hnot _].
  unfold expandCoasts. rewrite scan_cells, Heq. split; [|split].
  - intros c Hc. rewrite foldl_app. symmetry.
    apply (visits_elsewhere terrain expandCoastsPlot).
    + intros; by apply expandCoastsPlot_local.
    + by apply Hdisj.
  - intros c Hc. apply (visits_elsewhere terrain expandCoastsPlot); [|done].
    intros; by apply expandCoastsPlot_local.
  - apply (visits_at terrain expandCoastsPlot); [|done].
    intros; by apply expandCoastsPlot_local.
Qed.

(** A plot the pass changes was ocean, becomes coast, and was next to
    shallow water on the live map with a draw of [0]. *)
Lemma expandCoasts_changed iWidth iHeight w c :
  terrain (expandCoasts iWidth iHeight w) !! c ≠ terrain w !! c →
  terrain w !! c = Some g_OceanTerrain
  ∧ terrain (expandCoasts iWidth iHeight w) !! c = Some g_CoastTerrain
  ∧ ∃ before after,
      cells 0 iWidth 0 iHeight = before ++ c :: after
      ∧ eligible c.1 c.2 (foldl (visit expandCoastsPlot) w before)
      ∧ (getRandomNumber 2
           (hidden (foldl (visit expandCoastsPlot) w before))).1 = 0.
Proof.
  intros Hchg. destruct c as [x y].
  destruct (decide ((x, y) ∈ cells 0 iWidth 0 iHeight)) as [Hin|Hout].
  - apply elem_of_cells in Hin as [Hx Hy].
    destruct (cells_split 0 iWidth 0 iHeight x y Hx Hy)
      as (before & after & Heq & Hb & Ha).
    destruct (expandCoasts_live iWidth iHeight w x y before after Heq)
      as (_ & Hrest & Hfin).
    rewrite Hfin in Hchg |- *.
    destruct (expandCoastsPlot_at x y (foldl (visit expandCoastsPlot) w before))
      as [Hsame|(Hel & Hd & Hcoast)].
    + rewrite Hsame, Hrest in Hchg by done. done.
    + split; [|split; [done|]].
      * rewrite <- (Hrest (x, y)) by done. apply Hel.
      * exists before, after. done.
  - exfalso. apply Hchg. unfold expandCoasts. rewrite scan_cells.
    apply (visits_elsewhere terrain expandCoastsPlot); [|done].
    intros; by apply expandCoastsPlot_local.
Qed.

Lemma expandCoasts_cases iWidth iHeight w c :
  terrain (expandCoasts iWidth iHeight w) !! c = terrain w !! c
  ∨ (terrain w !! c = Some g_OceanTerrain
     ∧ terrain (expandCoasts iWidth iHeight w) !! c = Some g_CoastTerrain).
Proof.
  destruct (decide (terrain (expandCoasts iWidth iHeight w) !! c
                    = terrain w !! c)) as [Heq|Hne]; [by left|].
  right. by destruct (expandCoasts_changed _ _ _ _ Hne) as (? & ? & _).
Qed.

Lemma expandCoasts_water iWidth iHeight w c :
  isWater (terrain w !! c) →
  isWater (terrain (expandCoasts iWidth iHeight w) !! c).
Proof.
  intros Hw. destruct (expandCoasts_cases iWidth iHeight w c) as [->|[_ ->]];
    [done|by right].
Qed.
End CoastFacts.

(** ** earthlike.js *)
Section EarthLikeFacts.
Context `{E : Engine}.
Implicit Type w : World Hidden.
Import EarthLike.

Lemma fillWithOcean_frame iWidth iHeight w :
  gridWidth (fillWithOcean iWidth iHeight w) = gridWidth w
  ∧ gridHeight (fillWithOcean iWidth iHeight w) = gridHeight w
  ∧ mapSize (fillWithOcean iWidth iHeight w) = mapSize w
  ∧ Maps (fillWithOcean iWidth iHeight w) = Maps w
  ∧ hidden (fillWithOcean iWidth iHeight w) = hidden w.
Proof.
  unfold fillWithOcean.
  apply (scan_keep oceanPlot
           (λ s, gridWidth s = gridWidth w ∧ gridHeight s = gridHeight w
                 ∧ mapSize s = mapSize w ∧ Maps s = Maps w
                 ∧ hidden s = hidden w)); done.
Qed.

Lemma fillWithOcean_inside iWidth iHeight w x y :
  0 ≤ x < iWidth → 0 ≤ y < iHeight →
  terrain (fillWithOcean iWidth iHeight w) !! (x, y) = Some g_OceanTerrain
  ∧ plotTags (fillWithOcean iWidth iHeight w) !! (x, y) = Some PLOT_TAG_NONE.
Proof.
  intros Hx Hy. unfold fillWithOcean. split.
  - apply (scan_fill terrain oceanPlot) with
      (P := λ _, True) (v := λ _ _, g_OceanTerrain); try done; try lia.
    + intros x' y' s c Hne. simpl. apply lookup_insert_ne. congruence.
    + intros x' y' s _. simpl. apply lookup_insert_eq.
  - apply (scan_fill plotTags oceanPlot) with
      (P := λ _, True) (v := λ _ _, PLOT_TAG_NONE); try done; try lia.
    + intros x' y' s c Hne. simpl. apply lookup_insert_ne. congruence.
    + intros x' y' s _. simpl. apply lookup_insert_eq.
Qed.

Lemma fillWithOcean_outside iWidth iHeight w x y :
  ¬ (0 ≤ x < iWidth ∧ 0 ≤ y < iHeight) →
  terrain (fillWithOcean iWidth iHeight w) !! (x, y) = terrain w !! (x, y)
  ∧ plotTags (fillWithOcean iWidth iHeight w) !! (x, y) = plotTags w !! (x, y).
Proof.
  intros Hout. unfold fillWithOcean. split.
  - apply (scan_elsewhere terrain oceanPlot); [|lia].
    intros x' y' s c Hne. simpl. apply lookup_insert_ne. congruence.
  - apply (scan_elsewhere plotTags oceanPlot); [|lia].
    intros x' y' s c Hne. simpl. apply lookup_insert_ne. congruence.
Qed.

(** A turn of the secondary loop leaves every plot as it is or takes
    its own plot from flat land back to ocean. *)
Lemma secondaryPlot_cases eastWest threshold x y w c :
  terrain (secondaryPlot eastWest threshold x y w) !! c = terrain w !! c
  ∨ (terrain w !! c = Some g_FlatTerrain
     ∧ terrain (secondaryPlot eastWest threshold x y w) !! c
       = Some g_OceanTerrain).
Proof.
  unfold secondaryPlot, getTerrainType.
  case_bool_decide as Hflat; [|by left].
  destruct (_ <? threshold); [|by left].
  destruct (addWaterPlotTags_rest x y (num eastWest)
              (setTerrainType x y g_OceanTerrain w)) as (-> & _).
  simpl. destruct (decide (c = (x, y))) as [->|Hne].
  - right. split; [done|apply lookup_insert_eq].
  - left. apply lookup_insert_ne. congruence.
Qed.

Lemma secondaryPass_cases iWidth iHeight eastContinent continent w c :
  terrain (secondaryPass iWidth iHeight eastContinent continent w) !! c
  = terrain w !! c
  ∨ (terrain w !! c = Some g_FlatTerrain
     ∧ terrain (secondaryPass iWidth iHeight eastContinent continent w) !! c
       = Some g_OceanTerrain).
Proof.
  unfold secondaryPass, scanRegion. cbv zeta.
  match goal with |- context [scan _ _ _ _ ?b _] =>
    apply (scan_keep b
             (λ s', terrain s' !! c = terrain w !! c
                    ∨ (terrain w !! c = Some g_FlatTerrain
                       ∧ terrain s' !! c = Some g_OceanTerrain)))
  end; [|by left].
  intros x y s Hs.
  match goal with |- context [secondaryPlot ?ew ?thr x y s] =>
    destruct (secondaryPlot_cases ew thr x y s c) as [->|[Hflat ->]]
  end; [done|].
  right. split; [|done]. destruct Hs as [<-|[_ Hs]]; congruence.
Qed.
End EarthLikeFacts.

(** ** Two runs from the same setup *)
Section Reruns.
Context `{E : Engine}.
Implicit Type w : World Hidden.

Lemma outside_grid_None {A} (m : gmap (Z * Z) A) iWidth iHeight x y :
  map_Forall (λ c _, inGrid iWidth iHeight c) m →
  ¬ (0 ≤ x < iWidth ∧ 0 ≤ y < iHeight) →
  m !! (x, y) = None.
Proof.
  intros Hall Hout. destruct (m !! (x, y)) as [a|] eqn:Hm; [|done].
  destruct Hout. apply (Hall _ _ Hm).
Qed.

(** The landmass loop of smiley-face.js writes every plot of the grid,
    so nothing of an earlier map shows through. *)
Lemma createSmileyLandmasses_rerun c1 c2 rows cols sectors w1 w2 :
  sameSetup w1 w2 → plotsInGrid w1 → plotsInGrid w2 →
  SmileyFace.createSmileyLandmasses (gridWidth w1) (gridHeight w1)
    c1 c2 rows cols sectors w1
  = SmileyFace.createSmileyLandmasses (gridWidth w1) (gridHeight w1)
      c1 c2 rows cols sectors w2.
Proof.
  intros (HW & HH & Hsize & Hmaps & Hhid) [Ht1 Hg1] [Ht2 Hg2].
  pose proof (createSmileyLandmasses_frame (gridWidth w1) (gridHeight w1)
                c1 c2 rows cols sectors w1) as (F1 & F2 & F3 & F4 & F5).
  pose proof (createSmileyLandmasses_frame (gridWidth w1) (gridHeight w1)
                c1 c2 rows cols sectors w2) as (G1 & G2 & G3 & G4 & G5).
  assert (Hkind : ∀ x y,
    smileyKind (gridWidth w1) (gridHeight w1) c1 c2 rows cols sectors w1 x y
    = smileyKind (gridWidth w1) (gridHeight w1) c1 c2 rows cols sectors w2 x y).
  { intros x y. unfold smileyKind, smileyFractal. by rewrite Hhid. }
  apply World_eq; try congruence.
  - apply map_eq. intros [x y].
    destruct (decide (0 ≤ x < gridWidth w1 ∧ 0 ≤ y < gridHeight w1))
      as [[Hx Hy]|Hout].
    + rewrite !createSmileyLandmasses_terrain by done. by rewrite Hkind.
    + destruct (createSmileyLandmasses_outside (gridWidth w1) (gridHeight w1)
                  c1 c2 rows cols sectors w1 x y Hout) as [-> _].
      destruct (createSmileyLandmasses_outside (gridWidth w1) (gridHeight w1)
                  c1 c2 rows cols sectors w2 x y Hout) as [-> _].
      rewrite (outside_grid_None _ _ _ x y Ht1 Hout).
      rewrite HW, HH in Hout. by rewrite (outside_grid_None _ _ _ x y Ht2 Hout).
  - apply map_eq. intros [x y].
    destruct (decide (0 ≤ x < gridWidth w1 ∧ 0 ≤ y < gridHeight w1))
      as [[Hx Hy]|Hout].
    + rewrite !createSmileyLandmasses_tags by done. by rewrite Hkind.
    + destruct (createSmileyLandmasses_outside (gridWidth w1) (gridHeight w1)
                  c1 c2 rows cols sectors w1 x y Hout) as [_ ->].
      destruct (createSmileyLandmasses_outside (gridWidth w1) (gridHeight w1)
                  c1 c2 rows cols sectors w2 x y Hout) as [_ ->].
      rewrite (outside_grid_None _ _ _ x y Hg1 Hout).
      rewrite HW, HH in Hout. by rewrite (outside_grid_None _ _ _ x y Hg2 Hout).
  - unfold smileyFractal in *. congruence.
Qed.

Lemma smiley_landAndCoasts_rerun mapInfo w1 w2 :
  sameSetup w1 w2 → plotsInGrid w1 → plotsInGrid w2 →
  SmileyFace.landAndCoasts mapInfo w1 = SmileyFace.landAndCoasts mapInfo w2.
Proof.
  intros Hsame Hin1 Hin2.
  pose proof Hsame as (HW & HH & Hsize & Hmaps & Hhid).
  unfold SmileyFace.landAndCoasts. rewrite <- HW, <- HH, <- Hhid.
  destruct (getRandomNumber 2 (hidden w1)) as [iRandom h].
  destruct (if iRandom =? 1 then _ else _) as [p1 p2].
  destruct (chooseStartSectors _ _ _ _ _ _) as [sectors h'].
  rewrite (createSmileyLandmasses_rerun _ _ _ _ _
             (setHidden h' w1) (setHidden h' w2)); [done| |done|done].
  by repeat split.
Qed.

(** The first loop of earthlike.js does the same for that script. *)
Lemma fillWithOcean_rerun w1 w2 :
  sameSetup w1 w2 → plotsInGrid w1 → plotsInGrid w2 →
  EarthLike.fillWithOcean (gridWidth w1) (gridHeight w1) w1
  = EarthLike.fillWithOcean (gridWidth w1) (gridHeight w1) w2.
Proof.
  intros (HW & HH & Hsize & Hmaps & Hhid) [Ht1 Hg1] [Ht2 Hg2].
  pose proof (fillWithOcean_frame (gridWidth w1) (gridHeight w1) w1)
    as (F1 & F2 & F3 & F4 & F5).
  pose proof (fillWithOcean_frame (gridWidth w1) (gridHeight w1) w2)
    as (G1 & G2 & G3 & G4 & G5).
  apply World_eq; try congruence.
  - apply map_eq. intros [x y].
    destruct (decide (0 ≤ x < gridWidth w1 ∧ 0 ≤ y < gridHeight w1))
      as [[Hx Hy]|Hout].
    + destruct (fillWithOcean_inside _ _ w1 x y Hx Hy) as [-> _].
      by destruct (fillWithOcean_inside _ _ w2 x y Hx Hy) as [-> _].
    + destruct (fillWithOcean_outside _ _ w1 x y Hout) as [-> _].
      destruct (fillWithOcean_outside _ _ w2 x y Hout) as [-> _].
      rewrite (outside_grid_None _ _ _ x y Ht1 Hout).
      rewrite HW, HH in Hout. by rewrite (outside_grid_None _ _ _ x y Ht2 Hout).
  - apply map_eq. intros [x y].
    destruct (decide (0 ≤ x < gridWidth w1 ∧ 0 ≤ y < gridHeight w1))
      as [[Hx Hy]|Hout].
    + destruct (fillWithOcean_inside _ _ w1 x y Hx Hy) as [_ ->].
      by destruct (fillWithOcean_inside _ _ w2 x y Hx Hy) as [_ ->].
    + destruct (fillWithOcean_outside _ _ w1 x y Hout) as [_ ->].
      destruct (fillWithOcean_outside _ _ w2 x y Hout) as [_ ->].
      rewrite (outside_grid_None _ _ _ x y Hg1 Hout).
      rewrite HW, HH in Hout. by rewrite (outside_grid_None _ _ _ x y Hg2 Hout).
Qed.

Lemma earthlike_landAndCoasts_rerun w1 w2 :
  sameSetup w1 w2 → plotsInGrid w1 → plotsInGrid w2 →
  EarthLike.landAndCoasts w1 = EarthLike.landAndCoasts w2.
Proof.
  intros Hsame Hin1 Hin2.
  pose proof Hsame as (HW & HH & _).
  unfold EarthLike.landAndCoasts, EarthLike.carveContinents.
  rewrite <- HW, <- HH. by rewrite (fillWithOcean_rerun w1 w2).
Qed.
End Reruns.

(** ** The claims *)

(** C1 (amended).  Ocean gap of smiley-face.js: for every plot [(x, y)] of
    the grid whose column satisfies
    [continent1.east <= x < continent2.west] (the east end excluded),
    [createSmileyLandmasses] leaves ocean, in every row and whatever the
    height field is; and [expandCoasts] keeps a plot that is ocean or
    coast when it starts ocean or coast, so in the final grid a plot of
    the gap may be coast. *)
Theorem ocean_gap_is_water `{E : Engine} iWidth iHeight c1 c2 rows cols
    sectors (w : World Hidden) x y :
  0 ≤ x < iWidth → 0 ≤ y < iHeight →
  (east c1 <= num x)%Q → (num x < west c2)%Q →
  terrain (SmileyFace.createSmileyLandmasses iWidth iHeight c1 c2 rows cols
             sectors w) !! (x, y) = Some g_OceanTerrain
  ∧ ∀ w' : World Hidden,
      isWater (terrain w' !! (x, y)) →
      isWater (terrain (SmileyFace.expandCoasts iWidth iHeight w') !! (x, y)).
Proof.
  intros Hx Hy Hge Hlt. split.
  - rewrite createSmileyLandmasses_terrain by done.
    unfold smileyKind. by rewrite plotTerrain_gap.
  - intros w'. apply expandCoasts_water.
Qed.

Lemma ocean_gap_is_water_witness :
  terrain (@SmileyFace.createSmileyLandmasses highGround 60 38
             (@SmileyFace.westContinent highGround 60 38)
             (@SmileyFace.eastContinent highGround 60 38) 3 3 [] tinyMap)
    !! (20, 19) = Some g_OceanTerrain
  ∧ ∀ w' : World (@Hidden highGround),
      isWater (terrain w' !! (20, 19)) →
      isWater (terrain (@SmileyFace.expandCoasts highGround 60 38 w') !! (20, 19)).
Proof.
  apply (@ocean_gap_is_water highGround 60 38
           (@SmileyFace.westContinent highGround 60 38)
           (@SmileyFace.eastContinent highGround 60 38) 3 3 [] tinyMap 20 19).
  - lia.
  - lia.
  - vm_compute. discriminate.
  - vm_compute. reflexivity.
Defined.

(** C1, as stated, fails on a 60 x 38 map over high ground: column 42 is
    [eastContinent.west], inside the claimed range, and plot (42, 19) is
    flat land in the finished map; plot (20, 19), well inside the gap, is
    ocean after the landmass loop and after terrain validation, and coast
    after [expandCoasts]. *)
Lemma ocean_gap_counterexample :
  let westC := @SmileyFace.westContinent highGround 60 38 in
  let eastC := @SmileyFace.eastContinent highGround 60 38 in
  let classified :=
    @SmileyFace.createSmileyLandmasses highGround 60 38 westC eastC 3 3 []
      tinyMap in
  let final := @SmileyFace.generateMap highGround tinyMap in
  ((east westC <= num 42)%Q ∧ (num 42 <= west eastC)%Q
   ∧ terrain final !! (42, 19) = Some g_FlatTerrain)
  ∧ ((east westC <= num 20)%Q ∧ (num 20 <= west eastC)%Q
     ∧ terrain classified !! (20, 19) = Some g_OceanTerrain
     ∧ terrain (@validateAndFixTerrain highGround classified) !! (20, 19)
       = Some g_OceanTerrain
     ∧ terrain final !! (20, 19) = Some g_CoastTerrain).
Proof.
  cbv zeta. split; [split; [|split]|split; [|split; [|split; [|split]]]].
  - vm_compute. discriminate.
  - vm_compute. discriminate.
  - vm_compute. reflexivity.
  - vm_compute. discriminate.
  - vm_compute. discriminate.
  - vm_compute. reflexivity.
  - vm_compute. reflexivity.
  - vm_compute. reflexivity.
Qed.

(** X17.  Nothing of an earlier map shows through: [generateMap] of
    either script, run on two worlds of the same size, configuration and
    engine state whose plots hold different kinds and tags, ends in the
    same world, because its first loop overwrites kind and tags of every
    plot of the grid.  It needs a configuration row (a run without one
    returns the world it was given) and plots inside the grid. *)
Theorem generateMap_forgets_earlier_map `{E : Engine} (w1 w2 : World Hidden) :
  sameSetup w1 w2 → plotsInGrid w1 → plotsInGrid w2 →
  is_Some (Maps w1 !! mapSize w1) →
  SmileyFace.generateMap w1 = SmileyFace.generateMap w2
  ∧ EarthLike.generateMap w1 = EarthLike.generateMap w2.
Proof.
  intros Hsame Hin1 Hin2 [mapInfo Hinfo].
  pose proof Hsame as (HW & HH & Hsize & Hmaps & Hhid).
  unfold SmileyFace.generateMap, EarthLike.generateMap.
  rewrite <- Hsize, <- Hmaps, Hinfo, <- HW, <- HH. split.
  - by rewrite (smiley_landAndCoasts_rerun mapInfo w1 w2).
  - by rewrite (earthlike_landAndCoasts_rerun w1 w2).
Qed.

Lemma generateMap_forgets_earlier_map_witness :
  @SmileyFace.generateMap highGround tinyMap
  = @SmileyFace.generateMap highGround usedTinyMap
  ∧ @EarthLike.generateMap highGround tinyMap
    = @EarthLike.generateMap highGround usedTinyMap.
Proof.
  apply (@generateMap_forgets_earlier_map highGround tinyMap usedTinyMap).
  - repeat split.
  - split; apply (bool_decide_unpack (map_Forall _ _)); vm_compute; exact I.
  - split; apply (bool_decide_unpack (map_Forall _ _)); vm_compute; exact I.
  - exists RefEngine.standardInfo. reflexivity.
Defined.

(** C3.  Monotonic refinement of earthlike.js: for every region, every
    engine state and every plot, the secondary loop of [createContinent]
    leaves the plot as the primary loop left it or takes it from flat
    land back to ocean; so a plot that is flat land when
    [createContinent] returns was flat land at the end of the primary
    loop: the land after the secondary pass is a subset of the land after
    the primary pass. *)
Theorem secondary_pass_only_removes_land `{E : Engine} iWidth iHeight
    (eastContinent continent : EarthLike.Region) (w : World Hidden) (c : Z * Z) :
  let primary :=
    EarthLike.primaryPass iWidth iHeight eastContinent continent w in
  let secondary :=
    EarthLike.createContinent iWidth iHeight eastContinent continent w in
  (terrain secondary !! c = terrain primary !! c
   ∨ (terrain primary !! c = Some g_FlatTerrain
      ∧ terrain secondary !! c = Some g_OceanTerrain))
  ∧ (terrain secondary !! c = Some g_FlatTerrain →
     terrain primary !! c = Some g_FlatTerrain).
Proof.
  cbv zeta. unfold EarthLike.createContinent.
  pose proof (secondaryPass_cases iWidth iHeight eastContinent continent
                (EarthLike.primaryPass iWidth iHeight eastContinent continent w)
                c) as Hcases.
  split; [exact Hcases|].
  intros Hflat. destruct Hcases as [Hsame|[_ Hocean]]; congruence.
Qed.

Lemma secondary_pass_only_removes_land_witness :
  terrain (@EarthLike.primaryPass highGround 60 38
             (@EarthLike.eastContinent highGround 60 38)
             (@EarthLike.westContinent highGround 60 38)
             (@EarthLike.fillWithOcean highGround 60 38 tinyMap))
    !! (10, 19) = Some g_FlatTerrain.
Proof.
  apply (proj2 (@secondary_pass_only_removes_land highGround 60 38
                  (@EarthLike.eastContinent highGround 60 38)
                  (@EarthLike.westContinent highGround 60 38)
                  (@EarthLike.fillWithOcean highGround 60 38 tinyMap)
                  (10, 19))).
  vm_compute. reflexivity.
Defined.

(** X18.  The draw of [expandCoasts] as the code stands: for every plot
    of the grid that is ocean and next to shallow water when the scan
    reaches it, the pass makes exactly one draw, with range argument 2,
    and the plot is coast in the expanded map iff the draw is 0 and
    ocean otherwise. *)
Theorem coast_draw_one_of_two `{E : Engine} iWidth iHeight (w : World Hidden)
    x y before after :
  cells 0 iWidth 0 iHeight = before ++ (x, y) :: after →
  let live := foldl (visit SmileyFace.expandCoastsPlot) w before in
  getTerrainType x y live = Some g_OceanTerrain →
  isAdjacentToShallowWater x y live = true →
  hidden (SmileyFace.expandCoastsPlot x y live)
  = (getRandomNumber 2 (hidden live)).2
  ∧ (terrain (SmileyFace.expandCoasts iWidth iHeight w) !! (x, y)
       = Some g_CoastTerrain
     ↔ (getRandomNumber 2 (hidden live)).1 = 0)
  ∧ (terrain (SmileyFace.expandCoasts iWidth iHeight w) !! (x, y)
       = Some g_OceanTerrain
     ↔ (getRandomNumber 2 (hidden live)).1 ≠ 0).
Proof.
  intros Heq live Hocean Hadj.
  destruct (expandCoasts_live iWidth iHeight w x y before after Heq)
    as (_ & _ & ->).
  by apply expandCoastsPlot_decision.
Qed.

Lemma coast_draw_one_of_two_witness :
  let live :=
    foldl (visit (@SmileyFace.expandCoastsPlot highGround)) (shoreRow 0)
          [(0, 0); (1, 0)] in
  hidden (@SmileyFace.expandCoastsPlot highGround 2 0 live)
  = (@getRandomNumber highGround 2 (hidden live)).2
  ∧ (terrain (@SmileyFace.expandCoasts highGround 6 1 (shoreRow 0)) !! (2, 0)
       = Some g_CoastTerrain
     ↔ (@getRandomNumber highGround 2 (hidden live)).1 = 0)
  ∧ (terrain (@SmileyFace.expandCoasts highGround 6 1 (shoreRow 0)) !! (2, 0)
       = Some g_OceanTerrain
     ↔ (@getRandomNumber highGround 2 (hidden live)).1 ≠ 0).
Proof.
  apply (@coast_draw_one_of_two highGround 6 1 (shoreRow 0) 2 0
           [(0, 0); (1, 0)] [(3, 0); (4, 0); (5, 0)]).
  - vm_compute. reflexivity.
  - vm_compute. reflexivity.
  - vm_compute. reflexivity.
Defined.


(** C5 (amended).  The coast pass of smiley-face.js is one in-place scan:
    when the scan reaches a plot of the grid, the plots before it in scan
    order (lower rows, then lower columns of its row) already hold the
    kind the pass leaves in them, every other plot still holds its
    pre-pass kind, and the decision made for the plot on that live map
    is its final kind.  A plot promoted earlier in the scan can thus make
    a later plot eligible. *)
Theorem coast_pass_reads_live_map `{E : Engine} iWidth iHeight
    (w : World Hidden) x y :
  0 ≤ x < iWidth → 0 ≤ y < iHeight →
  ∃ before after,
    cells 0 iWidth 0 iHeight = before ++ (x, y) :: after
    ∧ let live := foldl (visit SmileyFace.expandCoastsPlot) w before in
      (∀ c, c ∈ before →
         terrain live !! c
         = terrain (SmileyFace.expandCoasts iWidth iHeight w) !! c)
      ∧ (∀ c, c ∉ before → terrain live !! c = terrain w !! c)
      ∧ terrain (SmileyFace.expandCoasts iWidth iHeight w) !! (x, y)
        = terrain (SmileyFace.expandCoastsPlot x y live) !! (x, y).
Proof.
  intros Hx Hy.
  destruct (cells_split 0 iWidth 0 iHeight x y) as (before & after & Heq & _);
    [lia|lia|].
  exists before, after. split; [done|].
  by apply expandCoasts_live with (after := after).
Qed.

Lemma coast_pass_reads_live_map_witness :
  ∃ before after,
    cells 0 6 0 1 = before ++ (3, 0) :: after
    ∧ let live :=
        foldl (visit (@SmileyFace.expandCoastsPlot highGround)) (shoreRow 0)
              before in
      (∀ c, c ∈ before →
         terrain live !! c
         = terrain (@SmileyFace.expandCoasts highGround 6 1 (shoreRow 0)) !! c)
      ∧ (∀ c, c ∉ before → terrain live !! c = terrain (shoreRow 0) !! c)
      ∧ terrain (@SmileyFace.expandCoasts highGround 6 1 (shoreRow 0)) !! (3, 0)
        = terrain (@SmileyFace.expandCoastsPlot highGround 3 0 live) !! (3, 0).
Proof.
  apply (@coast_pass_reads_live_map highGround 6 1 (shoreRow 0) 3 0); lia.
Defined.

(** C5, as stated, fails: on the row land, coast, ocean, ... with seed 0
    (every draw is 0) plot (3, 0) has no coast next to it before the
    pass, yet the in-place scan makes it coast, because plot (2, 0) was
    promoted just before; the scan that reads a snapshot leaves it ocean.
    The two scans give different maps. *)
Lemma coast_pass_snapshot_counterexample :
  RefEngine.hasCoastNeighbour (terrain (shoreRow 0)) 3 0 = false
  ∧ RefEngine.terrainRow (@SmileyFace.expandCoasts highGround 6 1 (shoreRow 0)) 0
    = [Some g_FlatTerrain; Some g_CoastTerrain; Some g_CoastTerrain;
       Some g_CoastTerrain; Some g_CoastTerrain; Some g_CoastTerrain]
  ∧ RefEngine.terrainRow (@CoastSnapshot.expandCoasts highGround 6 1 (shoreRow 0)) 0
    = [Some g_FlatTerrain; Some g_CoastTerrain; Some g_CoastTerrain;
       Some g_OceanTerrain; Some g_OceanTerrain; Some g_OceanTerrain]
  ∧ @SmileyFace.expandCoasts highGround 6 1 (shoreRow 0)
    ≠ @CoastSnapshot.expandCoasts highGround 6 1 (shoreRow 0).
Proof.
  split; [vm_compute; reflexivity|].
  split; [vm_compute; reflexivity|].
  split; [vm_compute; reflexivity|].
  intros Heq.
  assert (Hrow : RefEngine.terrainRow
                   (@SmileyFace.expandCoasts highGround 6 1 (shoreRow 0)) 0
                 = RefEngine.terrainRow
                     (@CoastSnapshot.expandCoasts highGround 6 1 (shoreRow 0)) 0)
    by (by rewrite Heq).
  vm_compute in Hrow. discriminate.
Qed.

(** C6 (amended).  Shape-mask override of smiley-face.js: for every plot
    of the grid where the mask test [isInFeature] is true,
    [createSmileyLandmasses] leaves ocean, whatever the height field and
    the engine are; and [expandCoasts] keeps such a plot ocean or coast
    when it starts ocean or coast.  In the finished map a masked plot is
    water, never land, but it may be coast. *)
Theorem shape_mask_forces_water `{E : Engine} iWidth iHeight c1 c2 rows cols
    sectors (w : World Hidden) x y :
  0 ≤ x < iWidth → 0 ≤ y < iHeight →
  SmileyFace.isInFeature iWidth iHeight c1 c2
    (iHeight / 12) (iHeight / 6) (iHeight / 12) x y = true →
  terrain (SmileyFace.createSmileyLandmasses iWidth iHeight c1 c2 rows cols
             sectors w) !! (x, y) = Some g_OceanTerrain
  ∧ ∀ w' : World Hidden,
      isWater (terrain w' !! (x, y)) →
      isWater (terrain (SmileyFace.expandCoasts iWidth iHeight w') !! (x, y)).
Proof.
  intros Hx Hy Hmask. split.
  - rewrite createSmileyLandmasses_terrain by done.
    unfold smileyKind. by rewrite plotTerrain_masked.
  - intros w'. apply expandCoasts_water.
Qed.

Lemma shape_mask_forces_water_witness :
  terrain (@SmileyFace.createSmileyLandmasses highGround 60 38
             (@SmileyFace.westContinent highGround 60 38)
             (@SmileyFace.eastContinent highGround 60 38) 3 3 [] tinyMap)
    !! (5, 25) = Some g_OceanTerrain
  ∧ ∀ w' : World (@Hidden highGround),
      isWater (terrain w' !! (5, 25)) →
      isWater (terrain (@SmileyFace.expandCoasts highGround 60 38 w') !! (5, 25)).
Proof.
  apply (@shape_mask_forces_water highGround 60 38
           (@SmileyFace.westContinent highGround 60 38)
           (@SmileyFace.eastContinent highGround 60 38) 3 3 [] tinyMap 5 25).
  - lia.
  - lia.
  - vm_compute. reflexivity.
Defined.

(** C6, as stated, fails on a 60 x 38 map whose height field is above the
    land threshold everywhere: plot (5, 25) is the centre of the west
    continent's left eye; it is ocean after the landmass loop and after
    terrain validation, and [expandCoasts] makes it coast, so its kind in
    the finished map is not ocean. *)
Lemma shape_mask_counterexample :
  let westC := @SmileyFace.westContinent highGround 60 38 in
  let eastC := @SmileyFace.eastContinent highGround 60 38 in
  let classified :=
    @SmileyFace.createSmileyLandmasses highGround 60 38 westC eastC 3 3 []
      tinyMap in
  @SmileyFace.isInFeature highGround 60 38 westC eastC
    (38 / 12) (38 / 6) (38 / 12) 5 25 = true
  ∧ terrain classified !! (5, 25) = Some g_OceanTerrain
  ∧ terrain (@validateAndFixTerrain highGround classified) !! (5, 25)
    = Some g_OceanTerrain
  ∧ terrain (@SmileyFace.generateMap highGround tinyMap) !! (5, 25)
    = Some g_CoastTerrain.
Proof.
  cbv zeta. split; [|split; [|split]]; vm_compute; reflexivity.
Qed.

(** C7 (amended).  Coast-expansion bound of smiley-face.js: every plot
    whose kind the pass changes was ocean before the pass and is coast
    after it, and when the scan reached it, it was next to shallow water
    on the live map (not necessarily next to land) and the draw was 0.
    So no plot holding land, or anything but ocean, is ever changed. *)
Theorem coast_pass_promotes_ocean_by_shallow_water `{E : Engine} iWidth iHeight
    (w : World Hidden) (c : Z * Z) :
  terrain (SmileyFace.expandCoasts iWidth iHeight w) !! c ≠ terrain w !! c →
  terrain w !! c = Some g_OceanTerrain
  ∧ terrain (SmileyFace.expandCoasts iWidth iHeight w) !! c = Some g_CoastTerrain
  ∧ ∃ before after,
      cells 0 iWidth 0 iHeight = before ++ c :: after
      ∧ isAdjacentToShallowWater c.1 c.2
          (foldl (visit SmileyFace.expandCoastsPlot) w before) = true
      ∧ (getRandomNumber 2
           (hidden (foldl (visit SmileyFace.expandCoastsPlot) w before))).1 = 0.
Proof.
  intros Hchg.
  destruct (expandCoasts_changed iWidth iHeight w c Hchg)
    as (Hocean & Hcoast & before & after & Heq & [_ Hadj] & Hdraw).
  split; [done|]. split; [done|]. by exists before, after.
Qed.

Lemma coast_pass_promotes_ocean_by_shallow_water_witness :
  terrain (shoreRow 0) !! (2, 0) = Some g_OceanTerrain
  ∧ terrain (@SmileyFace.expandCoasts highGround 6 1 (shoreRow 0)) !! (2, 0)
    = Some g_CoastTerrain
  ∧ ∃ before after,
      cells 0 6 0 1 = before ++ (2, 0) :: after
      ∧ @isAdjacentToShallowWater highGround (2, 0).1 (2, 0).2
          (foldl (visit (@SmileyFace.expandCoastsPlot highGround)) (shoreRow 0)
                 before) = true
      ∧ (@getRandomNumber highGround 2
           (hidden (foldl (visit (@SmileyFace.expandCoastsPlot highGround))
                          (shoreRow 0) before))).1 = 0.
Proof.
  apply (@coast_pass_promotes_ocean_by_shallow_water highGround 6 1
           (shoreRow 0) (2, 0)).
  vm_compute. discriminate.
Defined.

(** C7, as stated, fails: on the row land, coast, ocean, ... with seed 0
    the pass makes plot (2, 0) coast; it was ocean, its neighbours are the
    coast plot (1, 0) and the ocean plot (3, 0), and no land plot is next
    to it, before or after the pass. *)
Lemma coast_pass_counterexample :
  let after := @SmileyFace.expandCoasts highGround 6 1 (shoreRow 0) in
  terrain (shoreRow 0) !! (2, 0) = Some g_OceanTerrain
  ∧ terrain after !! (2, 0) = Some g_CoastTerrain
  ∧ RefEngine.hasLandNeighbour (terrain (shoreRow 0)) 2 0 = false
  ∧ RefEngine.hasLandNeighbour (terrain after) 2 0 = false.
Proof. cbv zeta. repeat split; vm_compute; reflexivity. Qed.

(** C8 (the code at the failing input).  Polar rows of earthlike.js: on a
    60 x 38 map over high ground the west region has [north = 36] and
    spans columns 4 to 25; the loops of [createContinent] run up to
    [y <= north], and plot (10, 36), in row [north] and inside the
    region's columns, is flat land in the classified grid, where the claim
    has ocean.  Row 37 and rows 0 and 1 are ocean. *)
Theorem earthlike_north_row_is_carved :
  let region := @EarthLike.westContinent highGround 60 38 in
  let classified := @EarthLike.carveContinents highGround tinyMap in
  EarthLike.north region = 36
  ∧ (EarthLike.west region ≤ 10 ≤ EarthLike.east region)
  ∧ terrain classified !! (10, 36) = Some g_FlatTerrain
  ∧ terrain classified !! (10, 37) = Some g_OceanTerrain
  ∧ terrain classified !! (10, 1) = Some g_OceanTerrain.
Proof.
  cbv zeta. split; [reflexivity|]. split; [vm_compute; split; discriminate|].
  repeat split; vm_compute; reflexivity.
Qed.

(** C9 (the code at the failing input).  Tags of earthlike.js: on a
    60 x 38 map whose primary fractal is high everywhere and whose
    secondary fractal is low at plot (10, 19), the primary loop makes the
    plot flat land and tags it landmass, the secondary loop takes it back
    to ocean and adds the water tags without clearing the others: the
    classified grid has an ocean plot that carries the landmass tags. *)
Theorem earthlike_reverted_plot_keeps_land_tags :
  let classified :=
    @EarthLike.carveContinents (highGroundWithBay 10 19) tinyMap in
  terrain classified !! (10, 19) = Some g_OceanTerrain
  ∧ PLOT_TAG_LANDMASS ∈ getPlotTags 10 19 classified
  ∧ PLOT_TAG_WEST_LANDMASS ∈ getPlotTags 10 19 classified
  ∧ PLOT_TAG_WATER ∈ getPlotTags 10 19 classified.
Proof.
  cbv zeta. split; [vm_compute; reflexivity|].
  repeat split; apply (bool_decide_unpack (_ ∈ _)); vm_compute; exact I.
Qed.

(** C10.  Fail-fast on missing configuration: when [GameInfo.Maps] has no
    row for the map size, [generateMap] of either script returns the
    world it was given: no terrain kind, no tag and no engine state is
    written. *)
Theorem generateMap_without_configuration `{E : Engine} (w : World Hidden) :
  Maps w !! mapSize w = None →
  SmileyFace.generateMap w = w ∧ EarthLike.generateMap w = w.
Proof.
  intros Hnone. unfold SmileyFace.generateMap, EarthLike.generateMap.
  by rewrite Hnone.
Qed.

Lemma generateMap_without_configuration_witness :
  @SmileyFace.generateMap highGround unknownSizeMap = unknownSizeMap
  ∧ @EarthLike.generateMap highGround unknownSizeMap = unknownSizeMap.
Proof.
  apply (@generateMap_without_configuration highGround unknownSizeMap).
  vm_compute. reflexivity.
Defined.


(** * Further properties *)

(** ** PngPreprocessor/Form1.cs *)
Section Preprocessor.
Import PngPreprocessor.
Variable NewLine : list ascii.

(** The five tests of [MapColorToLetter] give two letters. *)
Lemma MapColorToLetter_cases color :
  MapColorToLetter color
  = if (B color >? R color + 10) && (B color >? G color + 10)
    then "W"%char else "L"%char.
Proof.
  unfold MapColorToLetter.
  repeat match goal with |- context [if ?b then _ else _] => destruct b end;
    reflexivity.
Qed.


Lemma appendRow_app bmp sb y :
  appendRow NewLine bmp sb y = sb ++ rowLetters bmp y ++ NewLine.
Proof.
  unfold appendRow, rowLetters. rewrite app_assoc. f_equal.
  generalize (seqZ 0 (Width bmp)) as xs. intros xs. revert sb.
  induction xs as [|x xs IH]; intros sb; simpl.
  - by rewrite app_nil_r.
  - rewrite IH. by rewrite <- app_assoc.
Qed.

Lemma ProcessPlanetImage_rows bmp :
  ProcessPlanetImage NewLine bmp
  = mjoin ((λ y, rowLetters bmp y ++ NewLine) <$> seqZ 0 (Height bmp)).
Proof.
  unfold ProcessPlanetImage.
  assert (Hgen : ∀ ys sb,
    foldl (appendRow NewLine bmp) sb ys
    = sb ++ mjoin ((λ y, rowLetters bmp y ++ NewLine) <$> ys)).
  { induction ys as [|y ys IH]; intros sb; simpl.
    - by rewrite app_nil_r.
    - rewrite IH, appendRow_app. by rewrite <- !app_assoc. }
  by rewrite Hgen.
Qed.

Lemma rowLetters_length bmp y :
  length (rowLetters bmp y ++ NewLine)
  = (Z.to_nat (Width bmp) + length NewLine)%nat.
Proof.
  unfold rowLetters. by rewrite length_app, length_fmap, length_seqZ.
Qed.

Lemma rows_same_length bmp :
  Forall (λ l : list ascii,
            length l = (Z.to_nat (Width bmp) + length NewLine)%nat)
         ((λ y, rowLetters bmp y ++ NewLine) <$> seqZ 0 (Height bmp)).
Proof.
  apply Forall_fmap, Forall_forall. intros y _. apply rowLetters_length.
Qed.

Lemma sum_same_length {A} (n : nat) (ls : list (list A)) :
  Forall (λ l, length l = n) ls →
  sum_list (length <$> ls) = (length ls * n)%nat.
Proof.
  induction 1 as [|l ls Hl _ IH]; csimpl; [done|]. rewrite IH, Hl. lia.
Qed.

(** X1.  [MapColorToLetter] answers ['W'] exactly for a pixel whose blue
    channel exceeds both its red and its green channel by more than 10,
    and ['L'] for every other pixel: the green, red and dark branches all
    give the same letter. *)
Theorem MapColorToLetter_water_iff_blue color :
  (MapColorToLetter color = "W"%char
   ↔ B color > R color + 10 ∧ B color > G color + 10)
  ∧ (MapColorToLetter color = "L"%char
     ↔ ¬ (B color > R color + 10 ∧ B color > G color + 10)).
Proof.
  rewrite MapColorToLetter_cases.
  destruct (B color >? R color + 10) eqn:HR; destruct (B color >? G color + 10) eqn:HG;
    rewrite ?Z.gtb_gt in *; simpl;
    repeat match goal with
           | H : (_ >? _) = false |- _ =>
               apply Z.gtb_ltb in H || (rewrite Z.gtb_ltb in H; apply Z.ltb_ge in H)
           end;
    split; split; intros; try done; try lia.
Qed.

(** X2.  The text [ProcessPlanetImage] builds has [Height] rows of
    [Width] letters, each followed by the line terminator: its length is
    [Height * (Width + length NewLine)], and it is empty for an image
    without rows. *)
Theorem ProcessPlanetImage_length bmp :
  length (ProcessPlanetImage NewLine bmp)
  = (Z.to_nat (Height bmp) * (Z.to_nat (Width bmp) + length NewLine))%nat.
Proof.
  rewrite ProcessPlanetImage_rows, length_join.
  rewrite (sum_same_length _ _ (rows_same_length bmp)).
  by rewrite length_fmap, length_seqZ.
Qed.

(** X3.  In the text of [ProcessPlanetImage] the letter of pixel [(x, y)]
    stands at offset [y * (Width + length NewLine) + x], and the line
    terminator follows the [Width] letters of every row. *)
Theorem ProcessPlanetImage_pixel bmp x y :
  0 ≤ x < Width bmp → 0 ≤ y < Height bmp →
  let rowLength := (Z.to_nat (Width bmp) + length NewLine)%nat in
  ProcessPlanetImage NewLine bmp !! (Z.to_nat y * rowLength + Z.to_nat x)%nat
  = Some (MapColorToLetter (GetPixel bmp x y))
  ∧ ∀ i, (i < length NewLine)%nat →
      ProcessPlanetImage NewLine bmp
        !! (Z.to_nat y * rowLength + (Z.to_nat (Width bmp) + i))%nat
      = NewLine !! i.
Proof.
  intros Hx Hy rowLength.
  assert (Hrow : ((λ y, rowLetters bmp y ++ NewLine) <$> seqZ 0 (Height bmp))
                   !! Z.to_nat y = Some (rowLetters bmp y ++ NewLine)).
  { rewrite list_lookup_fmap, lookup_seqZ_lt by lia. simpl. do 3 f_equal. lia. }
  assert (Hlen : length (rowLetters bmp y) = Z.to_nat (Width bmp)).
  { unfold rowLetters. by rewrite length_fmap, length_seqZ. }
  rewrite ProcessPlanetImage_rows. split.
  - apply (join_lookup_Some_same_length' rowLength);
      [apply rows_same_length|unfold rowLength; lia|].
    eexists. split; [exact Hrow|].
    rewrite lookup_app_l by lia. unfold rowLetters.
    rewrite list_lookup_fmap, lookup_seqZ_lt by lia. simpl. do 3 f_equal. lia.
  - intros i Hi. destruct (NewLine !! i) as [ch|] eqn:Hch.
    + apply (join_lookup_Some_same_length' rowLength);
        [apply rows_same_length|unfold rowLength; lia|].
      eexists. split; [exact Hrow|].
      rewrite lookup_app_r by lia. rewrite Hlen.
      by replace (Z.to_nat (Width bmp) + i - Z.to_nat (Width bmp))%nat with i by lia.
    + apply lookup_ge_None in Hch. lia.
Qed.

(** X4.  Every character of the text of [ProcessPlanetImage] is ['W'],
    ['L'] or a character of the line terminator. *)
Theorem ProcessPlanetImage_alphabet bmp :
  Forall (λ ch, ch = "W"%char ∨ ch = "L"%char ∨ ch ∈ NewLine)
         (ProcessPlanetImage NewLine bmp).
Proof.
  rewrite ProcessPlanetImage_rows. apply Forall_forall. intros ch Hch.
  apply list_elem_of_join in Hch as (row & Hch & Hrow).
  apply list_elem_of_fmap in Hrow as (y & -> & _).
  apply elem_of_app in Hch as [Hch|Hch]; [|by right; right].
  apply list_elem_of_fmap in Hch as (x & -> & _).
  rewrite MapColorToLetter_cases. destruct (_ && _); auto.
Qed.
End Preprocessor.

(** ** earthlike.js: the two passes, plot by plot *)
Section Pointwise.
Context {X : Type} (body : Z -> Z -> World X -> World X).
Variable F : Z -> Z -> X -> option Terrain * gset PlotTag
             -> option Terrain * gset PlotTag.
Hypothesis body_hidden : ∀ x y w, hidden (body x y w) = hidden w.
Hypothesis body_other :
  ∀ x y w c, c ≠ (x, y) → plotOf (body x y w) c = plotOf w c.
Hypothesis body_own :
  ∀ x y w, plotOf (body x y w) (x, y) = F x y (hidden w) (plotOf w (x, y)).

Lemma visits_hidden l w : hidden (foldl (visit body) w l) = hidden w.
Proof.
  revert w. induction l as [|[x y] l IH]; intros w; [done|].
  simpl. rewrite IH. apply body_hidden.
Qed.

Lemma visits_plot_elsewhere l w c :
  c ∉ l → plotOf (foldl (visit body) w l) c = plotOf w c.
Proof.
  revert w. induction l as [|[x y] l IH]; intros w Hc; [done|].
  apply not_elem_of_cons in Hc as [Hne Hc]. simpl.
  rewrite IH by done. by apply body_other.
Qed.

(** A scan whose turns act on their own plot only, by a function of what
    the plot holds, applies that function once to every plot of the
    rectangle and leaves the others. *)
Lemma scan_pointwise x0 nx y0 ny w x y :
  plotOf (scan x0 nx y0 ny body w) (x, y)
  = if decide ((x0 ≤ x < x0 + nx) ∧ (y0 ≤ y < y0 + ny))
    then F x y (hidden w) (plotOf w (x, y))
    else plotOf w (x, y).
Proof.
  rewrite scan_cells. case_decide as Hin.
  - destruct Hin as [Hx Hy].
    destruct (cells_split x0 nx y0 ny x y Hx Hy)
      as (before & after & -> & Hb & Ha).
    rewrite foldl_app. simpl. rewrite visits_plot_elsewhere by done.
    unfold visit at 1. simpl. rewrite body_own, visits_hidden.
    by rewrite visits_plot_elsewhere.
  - apply visits_plot_elsewhere. by rewrite elem_of_cells.
Qed.

Lemma scan_hidden x0 nx y0 ny w :
  hidden (scan x0 nx y0 ny body w) = hidden w.
Proof. rewrite scan_cells. apply visits_hidden. Qed.
End Pointwise.

Lemma getPlotTags_addLandmassPlotTags {X} x y col (w : World X) c :
  getPlotTags c.1 c.2 (addLandmassPlotTags x y col w)
  = if decide (c = (x, y)) then withLandmassTags x col (getPlotTags x y w)
    else getPlotTags c.1 c.2 w.
Proof.
  destruct c as [cx cy]. simpl. case_decide as Hc.
  - inversion Hc; subst. unfold addLandmassPlotTags, addPlotTag, getPlotTags, withLandmassTags.
    destruct (Qle_bool col (num x)); simpl; by rewrite !lookup_insert_eq.
  - unfold getPlotTags. by rewrite addLandmassPlotTags_other.
Qed.

Lemma getPlotTags_addWaterPlotTags {X} x y col (w : World X) c :
  getPlotTags c.1 c.2 (addWaterPlotTags x y col w)
  = if decide (c = (x, y)) then withWaterTags x col (getPlotTags x y w)
    else getPlotTags c.1 c.2 w.
Proof.
  destruct c as [cx cy]. simpl. case_decide as Hc.
  - inversion Hc; subst. unfold addWaterPlotTags, addPlotTag, getPlotTags, withWaterTags.
    destruct (Qle_bool col (num x)); simpl; by rewrite !lookup_insert_eq.
  - unfold getPlotTags. by rewrite addWaterPlotTags_other.
Qed.

Section EarthLikePlots.
Context `{E : Engine}.
Implicit Type w : World Hidden.
Import EarthLike.


Lemma primaryPlot_hidden ew thr x y w :
  hidden (primaryPlot ew thr x y w) = hidden w.
Proof.
  unfold primaryPlot. case_bool_decide; [|done]. destruct (_ <=? _); [|done].
  by destruct (addLandmassPlotTags_rest x y (num ew)
                 (setTerrainType x y g_FlatTerrain w)) as (_ & -> & _).
Qed.

Lemma primaryPlot_plot ew thr x y w c :
  plotOf (primaryPlot ew thr x y w) c
  = if decide (c = (x, y))
    then primaryStep ew thr x y (hidden w) (plotOf w (x, y))
    else plotOf w c.
Proof.
  unfold primaryPlot, primaryStep, plotOf, getTerrainType. simpl.
  destruct (bool_decide (terrain w !! (x, y) = Some g_OceanTerrain)); simpl;
    [|by case_decide; simplify_eq].
  destruct (_ <=? _); [|by case_decide; simplify_eq].
  rewrite getPlotTags_addLandmassPlotTags.
  destruct (addLandmassPlotTags_rest x y (num ew)
              (setTerrainType x y g_FlatTerrain w)) as (-> & _).
  simpl. case_decide as Hc.
  - subst c. by rewrite lookup_insert_eq.
  - rewrite lookup_insert_ne by congruence. done.
Qed.

Lemma secondaryPlot_hidden ew thr x y w :
  hidden (secondaryPlot ew thr x y w) = hidden w.
Proof.
  unfold secondaryPlot. case_bool_decide; [|done]. destruct (_ <? _); [|done].
  by destruct (addWaterPlotTags_rest x y (num ew)
                 (setTerrainType x y g_OceanTerrain w)) as (_ & -> & _).
Qed.

Lemma secondaryPlot_plot ew thr x y w c :
  plotOf (secondaryPlot ew thr x y w) c
  = if decide (c = (x, y))
    then secondaryStep ew thr x y (hidden w) (plotOf w (x, y))
    else plotOf w c.
Proof.
  unfold secondaryPlot, secondaryStep, plotOf, getTerrainType. simpl.
  destruct (bool_decide (terrain w !! (x, y) = Some g_FlatTerrain)); simpl;
    [|by case_decide; simplify_eq].
  destruct (_ <? _); [|by case_decide; simplify_eq].
  rewrite getPlotTags_addWaterPlotTags.
  destruct (addWaterPlotTags_rest x y (num ew)
              (setTerrainType x y g_OceanTerrain w)) as (-> & _).
  simpl. case_decide as Hc.
  - subst c. by rewrite lookup_insert_eq.
  - rewrite lookup_insert_ne by congruence. done.
Qed.

Lemma scanRegion_plot c body F w x y :
  (∀ x y w, hidden (body x y w) = hidden w) →
  (∀ x y w c, plotOf (body x y w) c
              = if decide (c = (x, y)) then F x y (hidden w) (plotOf w (x, y))
                else plotOf w c) →
  plotOf (scanRegion c body w) (x, y)
  = if decide (inRegion c x y) then F x y (hidden w) (plotOf w (x, y))
    else plotOf w (x, y).
Proof.
  intros Hh Hp. unfold scanRegion.
  rewrite (scan_pointwise body F Hh).
  - unfold inRegion. repeat case_decide; try done; lia.
  - intros x' y' w' c' Hne. rewrite Hp. by case_decide.
  - intros x' y' w'. rewrite Hp. by case_decide.
Qed.

Lemma primaryPass_plot iWidth iHeight ec c w x y :
  hidden (primaryPass iWidth iHeight ec c w)
  = primaryFractal iWidth iHeight (hidden w)
  ∧ plotOf (primaryPass iWidth iHeight ec c w) (x, y)
    = if decide (inRegion c x y)
      then primaryStep (west ec)
             (FractalBuilder_getHeightFromPercent g_LandmassFractal 20
                (primaryFractal iWidth iHeight (hidden w)))
             x y (primaryFractal iWidth iHeight (hidden w)) (plotOf w (x, y))
      else plotOf w (x, y).
Proof.
  unfold primaryPass, primaryFractal, landWaterPercent. cbv zeta. split.
  - unfold scanRegion. rewrite scan_hidden; [done|].
    intros; apply primaryPlot_hidden.
  - match goal with |- context [scanRegion c (primaryPlot ?ew ?thr) _] =>
      rewrite (scanRegion_plot c (primaryPlot ew thr) (primaryStep ew thr))
    end; [done| |].
    + intros; apply primaryPlot_hidden.
    + intros; apply primaryPlot_plot.
Qed.

Lemma secondaryPass_plot iWidth iHeight ec c w x y :
  let h2 := FractalBuilder_create g_LandmassFractal iWidth iHeight 4 0 (hidden w) in
  hidden (secondaryPass iWidth iHeight ec c w) = h2
  ∧ plotOf (secondaryPass iWidth iHeight ec c w) (x, y)
    = if decide (inRegion c x y)
      then secondaryStep (west ec)
             (FractalBuilder_getHeightFromPercent g_LandmassFractal 30 h2)
             x y h2 (plotOf w (x, y))
      else plotOf w (x, y).
Proof.
  unfold secondaryPass, landWaterPercent. cbv zeta. split.
  - unfold scanRegion. rewrite scan_hidden; [done|].
    intros; apply secondaryPlot_hidden.
  - match goal with |- context [scanRegion c (secondaryPlot ?ew ?thr) _] =>
      rewrite (scanRegion_plot c (secondaryPlot ew thr) (secondaryStep ew thr))
    end; [done| |].
    + intros; apply secondaryPlot_hidden.
    + intros; apply secondaryPlot_plot.
Qed.
End EarthLikePlots.

(** Loops over an empty range visit no plot. *)
Lemma cells_empty x0 nx y0 ny : nx ≤ 0 ∨ ny ≤ 0 → cells x0 nx y0 ny = [].
Proof.
  intros Hempty. apply elem_of_nil_inv. intros [x y] Hin.
  apply elem_of_cells in Hin. lia.
Qed.

Section EarthLikeTheorems.
Context `{E : Engine}.
Implicit Type w : World Hidden.
Import EarthLike.

Lemma createContinent_plot iWidth iHeight ec c w x y :
  let h1 := primaryFractal iWidth iHeight (hidden w) in
  let h2 := secondaryFractal iWidth iHeight (hidden w) in
  hidden (createContinent iWidth iHeight ec c w) = h2
  ∧ plotOf (createContinent iWidth iHeight ec c w) (x, y)
    = if decide (inRegion c x y)
      then secondaryStep (west ec)
             (FractalBuilder_getHeightFromPercent g_LandmassFractal 30 h2) x y h2
             (primaryStep (west ec)
                (FractalBuilder_getHeightFromPercent g_LandmassFractal 20 h1)
                x y h1 (plotOf w (x, y)))
      else plotOf w (x, y).
Proof.
  intros h1 h2. unfold createContinent.
  destruct (primaryPass_plot iWidth iHeight ec c w x y) as [Hh1 Hp1].
  destruct (secondaryPass_plot iWidth iHeight ec c
              (primaryPass iWidth iHeight ec c w) x y) as [Hh2 Hp2].
  rewrite Hh1 in Hh2, Hp2. split; [exact Hh2|].
  rewrite Hp2, Hp1. by case_decide.
Qed.

Lemma createContinent_on_ocean iWidth iHeight ec c w x y :
  inRegion c x y → terrain w !! (x, y) = Some g_OceanTerrain →
  terrain (createContinent iWidth iHeight ec c w) !! (x, y)
  = Some (carvedKind iWidth iHeight (hidden w) x y)
  ∧ getPlotTags x y (createContinent iWidth iHeight ec c w)
    = carvedTags iWidth iHeight (hidden w) (west ec) x y (getPlotTags x y w).
Proof.
  intros Hin Hocean.
  destruct (createContinent_plot iWidth iHeight ec c w x y) as [_ Hp].
  rewrite decide_True in Hp by done.
  unfold plotOf in Hp. rewrite Hocean in Hp.
  unfold primaryStep, secondaryStep in Hp. cbn [fst snd] in Hp.
  unfold carvedKind, carvedTags, raisedByPrimary, keptBySecondary. cbv zeta.
  rewrite (bool_decide_eq_true_2 (Some g_OceanTerrain = Some g_OceanTerrain))
    in Hp by done.
  cbn [andb] in Hp.
  destruct (_ <=? _); cbn [fst snd andb negb] in Hp |- *.
  - rewrite (bool_decide_eq_true_2 (Some g_FlatTerrain = Some g_FlatTerrain))
      in Hp by done.
    cbn [andb] in Hp.
    destruct (_ <? _); cbn [fst snd andb negb] in Hp |- *; by inversion Hp.
  - rewrite (bool_decide_eq_false_2 (Some g_OceanTerrain = Some g_FlatTerrain))
      in Hp by done.
    by inversion Hp.
Qed.

Lemma createContinent_off iWidth iHeight ec c w x y :
  ¬ inRegion c x y
  ∨ (terrain w !! (x, y) ≠ Some g_OceanTerrain
     ∧ terrain w !! (x, y) ≠ Some g_FlatTerrain) →
  terrain (createContinent iWidth iHeight ec c w) !! (x, y) = terrain w !! (x, y)
  ∧ getPlotTags x y (createContinent iWidth iHeight ec c w) = getPlotTags x y w.
Proof.
  intros Helse.
  destruct (createContinent_plot iWidth iHeight ec c w x y) as [_ Hp].
  case_decide as Hin.
  - destruct Helse as [Hout|[Hno Hnf]]; [done|].
    unfold plotOf, primaryStep, secondaryStep in Hp. simpl in Hp.
    rewrite (bool_decide_eq_false_2 _ Hno) in Hp. simpl in Hp.
    rewrite (bool_decide_eq_false_2 _ Hnf) in Hp. simpl in Hp.
    by inversion Hp.
  - by inversion Hp.
Qed.

(** X5.  [createContinent] of earthlike.js on an ocean plot of its
    region: the plot ends flat land iff its height passes the primary
    threshold (20 percent) on the primary fractal and is not below the
    secondary threshold (30 percent) on the secondary fractal, and ocean
    otherwise; a plot raised and kept gets the landmass tags, a plot
    raised and reverted gets the water tags on top of them, a plot never
    raised keeps its tags. *)
Theorem createContinent_ocean_plot iWidth iHeight ec c w x y :
  inRegion c x y → terrain w !! (x, y) = Some g_OceanTerrain →
  terrain (createContinent iWidth iHeight ec c w) !! (x, y)
  = Some (carvedKind iWidth iHeight (hidden w) x y)
  ∧ getPlotTags x y (createContinent iWidth iHeight ec c w)
    = carvedTags iWidth iHeight (hidden w) (west ec) x y (getPlotTags x y w).
Proof. apply createContinent_on_ocean. Qed.

(** X6.  [createContinent] never writes outside its region, and inside
    it never touches a plot that is neither ocean nor flat land: kind and
    tags of such a plot are what they were. *)
Theorem createContinent_elsewhere iWidth iHeight ec c w x y :
  ¬ inRegion c x y
  ∨ (terrain w !! (x, y) ≠ Some g_OceanTerrain
     ∧ terrain w !! (x, y) ≠ Some g_FlatTerrain) →
  terrain (createContinent iWidth iHeight ec c w) !! (x, y) = terrain w !! (x, y)
  ∧ getPlotTags x y (createContinent iWidth iHeight ec c w) = getPlotTags x y w.
Proof. apply createContinent_off. Qed.

(** X7.  Degenerate region: when [west > east] or [south > north] the
    loops of [createContinent] run no turn; the call builds its two
    fractals and leaves the whole map as it was. *)
Theorem createContinent_degenerate iWidth iHeight ec c w :
  east c < west c ∨ north c < south c →
  createContinent iWidth iHeight ec c w
  = setHidden (secondaryFractal iWidth iHeight (hidden w)) w.
Proof.
  intros Hdeg.
  assert (Hscan : ∀ body (s : World Hidden), scanRegion c body s = s).
  { intros body s. unfold scanRegion. rewrite scan_cells, cells_empty; [done|lia]. }
  unfold createContinent, secondaryPass, primaryPass. cbv zeta.
  rewrite !Hscan. reflexivity.
Qed.
End EarthLikeTheorems.

Section ClassifiedGrid.
Context `{E : Engine}.
Implicit Type w : World Hidden.
Import EarthLike.

Lemma regions_apart iWidth iHeight x y :
  inRegion (westContinent iWidth iHeight) x y →
  ¬ inRegion (eastContinent iWidth iHeight) x y.
Proof.
  unfold inRegion, westContinent, eastContinent, gapEnd, oceanBuffer. simpl.
  lia.
Qed.


Lemma carveContinents_at w x y :
  0 ≤ x < gridWidth w → 0 ≤ y < gridHeight w →
  terrain (carveContinents w) !! (x, y) = Some (classifiedKind w x y)
  ∧ getPlotTags x y (carveContinents w) = classifiedTags w x y.
Proof.
  intros Hx Hy. unfold carveContinents, classifiedKind, classifiedTags. cbv zeta.
  set (iWidth := gridWidth w). set (iHeight := gridHeight w).
  set (ec := eastContinent iWidth iHeight).
  set (wc := westContinent iWidth iHeight).
  set (w0 := fillWithOcean iWidth iHeight w).
  destruct (fillWithOcean_inside iWidth iHeight w x y Hx Hy) as [Ht0 HT0].
  destruct (fillWithOcean_frame iWidth iHeight w) as (_ & _ & _ & _ & Hh0).
  fold w0 in Ht0, HT0, Hh0.
  assert (HT0' : getPlotTags x y w0 = ∅) by (unfold getPlotTags; by rewrite HT0).
  set (w1 := createContinent iWidth iHeight ec wc w0).
  destruct (createContinent_plot iWidth iHeight ec wc w0 x y) as [Hh1 _].
  fold w1 in Hh1. rewrite Hh0 in Hh1.
  destruct (decide (inRegion wc x y)) as [Hw|Hnw].
  - destruct (createContinent_on_ocean iWidth iHeight ec wc w0 x y Hw Ht0)
      as [Ht1 HT1].
    fold w1 in Ht1, HT1. rewrite Hh0, HT0' in *.
    destruct (createContinent_off iWidth iHeight ec ec w1 x y) as [-> ->];
      [left; by apply regions_apart|done].
  - destruct (createContinent_off iWidth iHeight ec wc w0 x y) as [Ht1 HT1];
      [by left|].
    fold w1 in Ht1, HT1. rewrite Ht0 in Ht1. rewrite HT0' in HT1.
    destruct (decide (inRegion ec x y)) as [He|Hne].
    + destruct (createContinent_on_ocean iWidth iHeight ec ec w1 x y He Ht1)
        as [-> ->].
      by rewrite Hh1, HT1.
    + destruct (createContinent_off iWidth iHeight ec ec w1 x y) as [-> ->];
        [by left|done].
Qed.

(** X8.  The classified grid of earthlike.js, plot by plot: a plot of
    the grid in the west region is carved by the first pair of fractals,
    a plot in the east region by the second pair (built after the first),
    and every other plot is ocean without tags; the regions do not
    overlap. *)
Theorem carveContinents_plot w x y :
  0 ≤ x < gridWidth w → 0 ≤ y < gridHeight w →
  terrain (carveContinents w) !! (x, y) = Some (classifiedKind w x y)
  ∧ getPlotTags x y (carveContinents w) = classifiedTags w x y.
Proof. apply carveContinents_at. Qed.

(** X9.  The margins of earthlike.js: the edge columns, the eight columns
    [gapStart .. gapStart + 7] of the gap, the rows below [south] and the
    rows above [north] are ocean and carry no tag in the classified
    grid, whatever the fractals are. *)
Theorem carveContinents_margins w x y :
  0 ≤ x < gridWidth w → 0 ≤ y < gridHeight w →
  x < g_OceanWaterColumns
  ∨ gapStart (gridWidth w) ≤ x ≤ gapStart (gridWidth w) + 7
  ∨ gridWidth w - g_OceanWaterColumns < x
  ∨ y < g_PolarWaterRows
  ∨ gridHeight w - g_PolarWaterRows < y →
  terrain (carveContinents w) !! (x, y) = Some g_OceanTerrain
  ∧ getPlotTags x y (carveContinents w) = ∅.
Proof.
  intros Hx Hy Hmargin.
  destruct (carveContinents_at w x y Hx Hy) as [-> ->].
  unfold classifiedKind, classifiedTags. cbv zeta.
  assert (Hw : ¬ inRegion (westContinent (gridWidth w) (gridHeight w)) x y).
  { unfold inRegion, westContinent, gapStart, oceanBuffer in *. simpl.
    change (8 / 2) with 4 in *. Z.to_euclidean_division_equations. lia. }
  assert (He : ¬ inRegion (eastContinent (gridWidth w) (gridHeight w)) x y).
  { unfold inRegion, eastContinent, gapEnd, gapStart, oceanBuffer in *. simpl.
    change (8 / 2) with 4 in *. Z.to_euclidean_division_equations. lia. }
  by rewrite !decide_False.
Qed.

(** X10.  Kinds and tags in the classified grid of earthlike.js: every
    plot of the grid is ocean or flat land; a flat plot carries exactly
    the landmass tags; and a plot that carries the water tag is ocean. *)
Theorem carveContinents_tags w x y :
  0 ≤ x < gridWidth w → 0 ≤ y < gridHeight w →
  let col := num (west (eastContinent (gridWidth w) (gridHeight w))) in
  (terrain (carveContinents w) !! (x, y) = Some g_OceanTerrain
   ∨ terrain (carveContinents w) !! (x, y) = Some g_FlatTerrain)
  ∧ (terrain (carveContinents w) !! (x, y) = Some g_FlatTerrain →
     getPlotTags x y (carveContinents w) = withLandmassTags x col ∅)
  ∧ (PLOT_TAG_WATER ∈ getPlotTags x y (carveContinents w) →
     terrain (carveContinents w) !! (x, y) = Some g_OceanTerrain).
Proof.
  intros Hx Hy col.
  destruct (carveContinents_at w x y Hx Hy) as [-> ->].
  assert (Hno : PLOT_TAG_WATER ∉ withLandmassTags x col ∅).
  { unfold withLandmassTags.
    rewrite !elem_of_union, !elem_of_singleton, elem_of_empty.
    destruct (Qle_bool col (num x)); intros [?|[?|[]]]; discriminate. }
  unfold classifiedKind, classifiedTags, carvedKind, carvedTags. cbv zeta.
  fold col.
  repeat case_decide;
    try destruct (raisedByPrimary _ _ _ x y);
    try destruct (keptBySecondary _ _ _ x y); simpl;
    (split; [auto|split; [by intros|intros Hin; by try destruct (Hno Hin)]]).
Qed.
End ClassifiedGrid.

(** ** smiley-face.js: the land and the coast pass *)
Lemma Qltb_ge a b : Qltb a b = false ↔ (b <= a)%Q.
Proof.
  unfold Qltb. rewrite negb_false_iff. apply Qle_bool_iff.
Qed.

Lemma Qle_bool_lt a b : Qle_bool a b = false ↔ (b < a)%Q.
Proof.
  rewrite <- Qltb_lt. unfold Qltb. by rewrite negb_true_iff.
Qed.

Lemma half_nonpositive (r : Z) : r ≤ 0 → (num r / 2 <= 0)%Q.
Proof.
  intros Hr. unfold num, Qle, Qdiv, Qmult, Qinv. simpl. lia.
Qed.

Section SmileyMore.
Context `{E : Engine}.
Implicit Type w : World Hidden.
Import SmileyFace.

(** X11.  On a map lower than 12 rows the face of smiley-face.js is
    empty: [eyeRadius] and [mouthHeight] are [floor(iHeight/12) <= 0], so
    no plot passes an eye test or the mouth test. *)
Theorem isInFeature_low_map iWidth iHeight c1 c2 x y :
  iHeight < 12 →
  isInFeature iWidth iHeight c1 c2
    (iHeight / 12) (iHeight / 6) (iHeight / 12) x y = false.
Proof.
  intros Hlow.
  assert (Hr : iHeight / 12 ≤ 0) by (Z.to_euclidean_division_equations; lia).
  unfold isInFeature, sqrt_lt. cbv zeta.
  assert ((0 <? iHeight / 12) = false) as -> by (apply Z.ltb_ge; lia).
  rewrite !andb_false_l, !orb_false_l.
  match goal with |- Qltb ?a ?b && _ = false =>
    assert (Qltb a b = false) as ->; [|done]
  end.
  apply Qltb_ge. eapply Qle_trans; [by apply half_nonpositive|apply Qabs_nonneg].
Qed.

(** X12.  What [createSmileyLandmasses] makes of a plot of the grid: flat
    land or ocean, and flat land exactly when the row is inside
    [south, north), the column is inside [continent1.west,
    continent2.east) and outside [continent1.east, continent2.west), the
    plot is outside the face, and its adjusted height is not below the
    double [iWaterHeight * g_Cutoff] rounds to. *)
Theorem smiley_land_iff iWidth iHeight c1 c2 rows cols sectors w x y :
  0 ≤ x < iWidth → 0 ≤ y < iHeight →
  let h := smileyFractal iWidth iHeight w in
  let iWaterHeight :=
    FractalBuilder_getHeightFromPercent g_LandmassFractal g_WaterPercent h in
  let classified :=
    createSmileyLandmasses iWidth iHeight c1 c2 rows cols sectors w in
  (terrain classified !! (x, y) = Some g_FlatTerrain
   ∨ terrain classified !! (x, y) = Some g_OceanTerrain)
  ∧ (terrain classified !! (x, y) = Some g_FlatTerrain
     ↔ (south c1 <= num y)%Q ∧ (num y < north c1)%Q
       ∧ (west c1 <= num x)%Q ∧ (num x < east c2)%Q
       ∧ ((num x < east c1)%Q ∨ (west c2 <= num x)%Q)
       ∧ isInFeature iWidth iHeight c1 c2
           (iHeight / 12) (iHeight / 6) (iHeight / 12) x y = false
       ∧ (roundToDouble (num iWaterHeight * g_Cutoff)
          <= getHeightAdjustingForStartSector x y iWaterHeight
               g_FractalWeight g_CenterWeight g_StartSectorWeight
               c1 c2 rows cols sectors h)%Q).
Proof.
  intros Hx Hy h iWaterHeight classified. subst classified.
  rewrite createSmileyLandmasses_terrain by done.
  unfold smileyKind. fold h. fold iWaterHeight. split.
  { match goal with |- context [plotTerrain ?a ?b ?c ?d ?e ?f ?g ?h ?i ?j ?k ?l ?m ?n] =>
      destruct (plotTerrain_kinds a b c d e f g h i j k l m n) as [-> | ->]
    end; auto. }
  unfold plotTerrain, inPolarRows, inOceanColumns.
  rewrite <- !Qltb_ge, <- !Qle_bool_lt.
  destruct (Qltb (num y) (south c1)), (Qle_bool (north c1) (num y)),
    (Qltb (num x) (west c1)), (Qle_bool (east c2) (num x)),
    (Qle_bool (east c1) (num x)), (Qltb (num x) (west c2)),
    (isInFeature _ _ _ _ _ _ _ _ _),
    (Qltb _ (roundToDouble (num iWaterHeight * g_Cutoff)));
    simpl; split; intros; try done; intuition congruence.
Qed.

(** X13.  Polar rows of smiley-face.js: every plot of the grid in a row
    below [continent1.south] or at or above [continent1.north] is ocean
    when [createSmileyLandmasses] returns. *)
Theorem smiley_polar_invariant iWidth iHeight c1 c2 rows cols sectors w x y :
  0 ≤ x < iWidth → 0 ≤ y < iHeight →
  (num y < south c1)%Q ∨ (north c1 <= num y)%Q →
  terrain (createSmileyLandmasses iWidth iHeight c1 c2 rows cols sectors w)
    !! (x, y) = Some g_OceanTerrain.
Proof. apply smiley_polar_rows_are_ocean. Qed.

(** X14.  Tags of smiley-face.js: when [createSmileyLandmasses] returns,
    every plot of the grid has a kind and a tag set, and the tags of a
    flat plot are all landmass tags, those of an ocean plot all water
    tags. *)
Theorem smiley_tag_consistency iWidth iHeight c1 c2 rows cols sectors w x y :
  0 ≤ x < iWidth → 0 ≤ y < iHeight →
  ∃ t T,
    terrain (createSmileyLandmasses iWidth iHeight c1 c2 rows cols sectors w)
      !! (x, y) = Some t
    ∧ plotTags (createSmileyLandmasses iWidth iHeight c1 c2 rows cols sectors w)
        !! (x, y) = Some T
    ∧ ((t = g_FlatTerrain ∧ ∀ tag, tag ∈ T → isLandmassTag tag = true)
       ∨ (t = g_OceanTerrain ∧ ∀ tag, tag ∈ T → isWaterTag tag = true)).
Proof. apply smiley_tags_follow_terrain. Qed.
End SmileyMore.

Section CoastMore.
Context `{E : Engine}.
Implicit Type w : World Hidden.
Import SmileyFace.

(** X15.  On a map none of whose grid plots is ocean (an empty grid
    included) [expandCoasts] makes no draw and returns the world
    unchanged. *)
Theorem expandCoasts_without_ocean iWidth iHeight w :
  (∀ x y, 0 ≤ x < iWidth → 0 ≤ y < iHeight →
          terrain w !! (x, y) ≠ Some g_OceanTerrain) →
  expandCoasts iWidth iHeight w = w.
Proof.
  intros Hno. unfold expandCoasts. rewrite scan_cells.
  assert (Hall : ∀ c, c ∈ cells 0 iWidth 0 iHeight →
                      terrain w !! c ≠ Some g_OceanTerrain).
  { intros [x y] Hin. apply elem_of_cells in Hin. apply Hno; lia. }
  induction (cells 0 iWidth 0 iHeight) as [|[x y] l IH]; [done|].
  simpl. unfold visit at 2. simpl.
  rewrite expandCoastsPlot_skip.
  - apply IH. intros c Hc. apply Hall. by right.
  - intros [Hocean _]. apply (Hall (x, y)); [left|done].
Qed.

(** X16.  [expandCoasts] writes terrain kinds of existing plots only: the
    tags, the grid size, the configuration and the set of plots of the
    map are what they were. *)
Theorem expandCoasts_frame iWidth iHeight w :
  plotTags (expandCoasts iWidth iHeight w) = plotTags w
  ∧ gridWidth (expandCoasts iWidth iHeight w) = gridWidth w
  ∧ gridHeight (expandCoasts iWidth iHeight w) = gridHeight w
  ∧ mapSize (expandCoasts iWidth iHeight w) = mapSize w
  ∧ Maps (expandCoasts iWidth iHeight w) = Maps w
  ∧ dom (terrain (expandCoasts iWidth iHeight w)) = dom (terrain w).
Proof.
  unfold expandCoasts.
  apply (scan_keep expandCoastsPlot
           (λ s, plotTags s = plotTags w ∧ gridWidth s = gridWidth w
                 ∧ gridHeight s = gridHeight w ∧ mapSize s = mapSize w
                 ∧ Maps s = Maps w ∧ dom (terrain s) = dom (terrain w)));
    [|done].
  intros x y s (<- & <- & <- & <- & <- & <-).
  destruct (decide (eligible x y s)) as [Hel|Hno].
  - rewrite expandCoastsPlot_draw by done.
    destruct (_ =? 0); simpl; [|done].
    repeat split. destruct Hel as [Hocean _].
    apply dom_insert_lookup_L. unfold getTerrainType in Hocean. simpl.
    by rewrite Hocean.
  - by rewrite expandCoastsPlot_skip.
Qed.
End CoastMore.

(** ** The further properties on concrete inputs *)

Lemma ProcessPlanetImage_pixel_witness :
  let rowLength :=
    (Z.to_nat (PngPreprocessor.Width fourPixels) + length CRLF)%nat in
  PngPreprocessor.ProcessPlanetImage CRLF fourPixels
    !! (Z.to_nat 1 * rowLength + Z.to_nat 1)%nat
  = Some (PngPreprocessor.MapColorToLetter
            (PngPreprocessor.GetPixel fourPixels 1 1))
  ∧ ∀ i, (i < length CRLF)%nat →
      PngPreprocessor.ProcessPlanetImage CRLF fourPixels
        !! (Z.to_nat 1 * rowLength
            + (Z.to_nat (PngPreprocessor.Width fourPixels) + i))%nat
      = CRLF !! i.
Proof.
  apply (ProcessPlanetImage_pixel CRLF fourPixels 1 1).
  - simpl. lia.
  - simpl. lia.
Defined.

Lemma createContinent_ocean_plot_witness :
  let E := highGroundWithBay 10 19 in
  let ec := @EarthLike.eastContinent E 60 38 in
  let wc := @EarthLike.westContinent E 60 38 in
  let w := @EarthLike.fillWithOcean E 60 38 tinyMap in
  terrain (@EarthLike.createContinent E 60 38 ec wc w) !! (10, 19)
  = Some (@carvedKind E 60 38 (hidden w) 10 19)
  ∧ getPlotTags 10 19 (@EarthLike.createContinent E 60 38 ec wc w)
    = @carvedTags E 60 38 (hidden w) (EarthLike.west ec) 10 19
        (getPlotTags 10 19 w).
Proof.
  apply (@createContinent_ocean_plot (highGroundWithBay 10 19) 60 38).
  - apply (bool_decide_unpack (inRegion _ _ _)). vm_compute. exact I.
  - vm_compute. reflexivity.
Defined.

Lemma createContinent_elsewhere_witness :
  let ec := @EarthLike.eastContinent highGround 60 38 in
  let wc := @EarthLike.westContinent highGround 60 38 in
  let w := @EarthLike.fillWithOcean highGround 60 38 tinyMap in
  terrain (@EarthLike.createContinent highGround 60 38 ec wc w) !! (30, 19)
  = terrain w !! (30, 19)
  ∧ getPlotTags 30 19 (@EarthLike.createContinent highGround 60 38 ec wc w)
    = getPlotTags 30 19 w.
Proof.
  apply (@createContinent_elsewhere highGround 60 38).
  left. apply (bool_decide_unpack (¬ inRegion _ _ _)). vm_compute. exact I.
Defined.

Lemma createContinent_degenerate_witness :
  @EarthLike.createContinent highGround 60 38
    (@EarthLike.eastContinent highGround 60 38) emptyRegion tinyMap
  = setHidden (@secondaryFractal highGround 60 38 (hidden tinyMap)) tinyMap.
Proof.
  apply (@createContinent_degenerate highGround 60 38).
  left. vm_compute. reflexivity.
Defined.

Lemma carveContinents_plot_witness :
  terrain (@EarthLike.carveContinents (highGroundWithBay 10 19) tinyMap)
    !! (10, 19)
  = Some (@classifiedKind (highGroundWithBay 10 19) tinyMap 10 19)
  ∧ getPlotTags 10 19
      (@EarthLike.carveContinents (highGroundWithBay 10 19) tinyMap)
    = @classifiedTags (highGroundWithBay 10 19) tinyMap 10 19.
Proof.
  apply (@carveContinents_plot (highGroundWithBay 10 19) tinyMap 10 19).
  - vm_compute. split; [discriminate|reflexivity].
  - vm_compute. split; [discriminate|reflexivity].
Defined.

Lemma carveContinents_margins_witness :
  terrain (@EarthLike.carveContinents highGround tinyMap) !! (30, 19)
  = Some g_OceanTerrain
  ∧ getPlotTags 30 19 (@EarthLike.carveContinents highGround tinyMap) = ∅.
Proof.
  apply (@carveContinents_margins highGround tinyMap 30 19).
  - vm_compute. split; [discriminate|reflexivity].
  - vm_compute. split; [discriminate|reflexivity].
  - right. left. vm_compute. split; discriminate.
Defined.

Lemma carveContinents_tags_witness :
  let E := highGroundWithBay 10 19 in
  let col := num (EarthLike.west (@EarthLike.eastContinent E 60 38)) in
  let classified := @EarthLike.carveContinents E tinyMap in
  (terrain classified !! (11, 19) = Some g_OceanTerrain
   ∨ terrain classified !! (11, 19) = Some g_FlatTerrain)
  ∧ (terrain classified !! (11, 19) = Some g_FlatTerrain →
     getPlotTags 11 19 classified = withLandmassTags 11 col ∅)
  ∧ (PLOT_TAG_WATER ∈ getPlotTags 11 19 classified →
     terrain classified !! (11, 19) = Some g_OceanTerrain).
Proof.
  apply (@carveContinents_tags (highGroundWithBay 10 19) tinyMap 11 19).
  - vm_compute. split; [discriminate|reflexivity].
  - vm_compute. split; [discriminate|reflexivity].
Defined.

Lemma isInFeature_low_map_witness :
  @SmileyFace.isInFeature highGround 60 8
    (@SmileyFace.westContinent highGround 60 8)
    (@SmileyFace.eastContinent highGround 60 8)
    (8 / 12) (8 / 6) (8 / 12) 11 4 = false.
Proof.
  apply (@isInFeature_low_map highGround 60 8). lia.
Defined.

Lemma smiley_land_iff_witness :
  let E := highGround in
  let c1 := @SmileyFace.westContinent E 60 38 in
  let c2 := @SmileyFace.eastContinent E 60 38 in
  let h := @smileyFractal E 60 38 tinyMap in
  let iWaterHeight :=
    @FractalBuilder_getHeightFromPercent E g_LandmassFractal g_WaterPercent h in
  let classified :=
    @SmileyFace.createSmileyLandmasses E 60 38 c1 c2 3 3 [] tinyMap in
  (terrain classified !! (10, 19) = Some g_FlatTerrain
   ∨ terrain classified !! (10, 19) = Some g_OceanTerrain)
  ∧ (terrain classified !! (10, 19) = Some g_FlatTerrain
     ↔ (south c1 <= num 19)%Q ∧ (num 19 < north c1)%Q
       ∧ (west c1 <= num 10)%Q ∧ (num 10 < east c2)%Q
       ∧ ((num 10 < east c1)%Q ∨ (west c2 <= num 10)%Q)
       ∧ @SmileyFace.isInFeature E 60 38 c1 c2
           (38 / 12) (38 / 6) (38 / 12) 10 19 = false
       ∧ (@roundToDouble E (num iWaterHeight * g_Cutoff)
          <= @getHeightAdjustingForStartSector E 10 19 iWaterHeight
               g_FractalWeight g_CenterWeight g_StartSectorWeight
               c1 c2 3 3 [] h)%Q).
Proof.
  apply (@smiley_land_iff highGround 60 38
           (@SmileyFace.westContinent highGround 60 38)
           (@SmileyFace.eastContinent highGround 60 38) 3 3 [] tinyMap 10 19);
    lia.
Defined.

Lemma smiley_polar_invariant_witness :
  terrain (@SmileyFace.createSmileyLandmasses highGround 60 38
             (@SmileyFace.westContinent highGround 60 38)
             (@SmileyFace.eastContinent highGround 60 38) 3 3 [] tinyMap)
    !! (10, 36) = Some g_OceanTerrain.
Proof.
  apply (@smiley_polar_invariant highGround 60 38
           (@SmileyFace.westContinent highGround 60 38)
           (@SmileyFace.eastContinent highGround 60 38) 3 3 [] tinyMap 10 36).
  - lia.
  - lia.
  - right. vm_compute. discriminate.
Defined.

Lemma smiley_tag_consistency_witness :
  ∃ t T,
    terrain (@SmileyFace.createSmileyLandmasses highGround 60 38
               (@SmileyFace.westContinent highGround 60 38)
               (@SmileyFace.eastContinent highGround 60 38) 3 3 [] tinyMap)
      !! (10, 19) = Some t
    ∧ plotTags (@SmileyFace.createSmileyLandmasses highGround 60 38
                  (@SmileyFace.westContinent highGround 60 38)
                  (@SmileyFace.eastContinent highGround 60 38) 3 3 [] tinyMap)
        !! (10, 19) = Some T
    ∧ ((t = g_FlatTerrain ∧ ∀ tag, tag ∈ T → isLandmassTag tag = true)
       ∨ (t = g_OceanTerrain ∧ ∀ tag, tag ∈ T → isWaterTag tag = true)).
Proof.
  apply (@smiley_tag_consistency highGround 60 38
           (@SmileyFace.westContinent highGround 60 38)
           (@SmileyFace.eastContinent highGround 60 38) 3 3 [] tinyMap 10 19);
    lia.
Defined.

Lemma expandCoasts_without_ocean_witness :
  @SmileyFace.expandCoasts highGround 4 1 landRow = landRow.
Proof.
  apply (@expandCoasts_without_ocean highGround 4 1 landRow).
  intros x y Hx Hy.
  assert (y = 0) as -> by lia.
  assert (x = 0 ∨ x = 1 ∨ x = 2 ∨ x = 3) as [-> | [-> | [-> | ->]]] by lia;
    vm_compute; discriminate.
Defined.
